(** * salary_ics: payday dates shifted to the previous working day

    A shallow embedding of [salary_ics.py]: the day classifier, the
    non-working calendar, the working-day predicate and the backward shift,
    the rule parser and the event generator, with the properties the design
    document states about them. *)

From Equations Require Import Equations.
From Stdlib Require Import ZArith NArith List Lia Bool String Ascii.
From Stdlib Require Import Decimal DecimalZ.
From stdpp Require Import base decidable countable gmap list sorting.

Local Open Scope Z_scope.

(** ** Exceptions and results *)

(** The [ValueError]s of the program are told apart by their message; the
    payload is the text the message quotes. *)
Inductive value_error : Type :=
  | RulesStringEmpty                          (* "rules string is empty" *)
  | InvalidRule (part : list N)               (* "Invalid rule '..'. Expected format DAY:LABEL" *)
  | InvalidDay (day_s part : list N)          (* "Invalid day '..' in rule '..'" *)
  | InvalidLiteral (day_s : list N)           (* raised by int() *)
  | DayOutOfRange (part : list N)             (* "Day out of range in rule '..'" *)
  | EmptyLabel (part : list N)                (* "Empty label in rule '..'" *)
  | DateOutOfRange.                           (* raised by date() *)

Inductive exn : Type :=
  | ValueError (why : value_error)
  | OverflowError.

Inductive result (A : Type) : Type :=
  | Ok (a : A)
  | Raise (e : exn).
Arguments Ok {A} a.
Arguments Raise {A} e.

#[global] Instance result_ret : MRet result := fun A a => Ok a.
#[global] Instance result_bind : MBind result := fun A B k r =>
  match r with
  | Ok a => k a
  | Raise e => Raise e
  end.

(** ** Text (str) *)

(** A [str] is a sequence of Unicode code points. *)
Abbreviation str := (list N).

Module Text.

(** Literals are written as in the source file and decoded from UTF-8. *)
Fixpoint utf8_go (pending : nat) (acc : N) (bytes : list N) : str :=
  match bytes with
  | [] => []
  | b :: rest =>
      match pending with
      | O =>
          if (b <? 128)%N then b :: utf8_go 0 0 rest
          else if (b <? 224)%N then utf8_go 1 (b - 192) rest
          else if (b <? 240)%N then utf8_go 2 (b - 224) rest
          else utf8_go 3 (b - 240) rest
      | S O => (acc * 64 + (b - 128))%N :: utf8_go 0 0 rest
      | S p => utf8_go p (acc * 64 + (b - 128))%N rest
      end
  end.

Definition lit (s : string) : str :=
  utf8_go 0 0 (map N_of_ascii (list_ascii_of_string s)).

(** Whitespace, as [str.isspace], [str.strip] and the pattern [\s] see it. *)
Definition isspace (c : N) : bool :=
  ((9 <=? c) && (c <=? 13) || (28 <=? c) && (c <=? 32) ||
   (c =? 133) || (c =? 160) || (c =? 5760) ||
   (8192 <=? c) && (c <=? 8202) ||
   (c =? 8232) || (c =? 8233) || (c =? 8239) || (c =? 8287) ||
   (c =? 12288))%N.

(** Decimal digits (category Nd, Unicode 14.0) come in runs of ten, 0 to
    9; the first code point of each run. *)
Definition decimal_runs : list N :=
  [48; 1632; 1776; 1984; 2406; 2534; 2662; 2790; 2918; 3046; 3174; 3302;
   3430; 3558; 3664; 3792; 3872; 4160; 4240; 6112; 6160; 6470; 6608; 6784;
   6800; 6992; 7088; 7232; 7248; 42528; 43216; 43264; 43472; 43504; 43600;
   44016; 65296; 66720; 68912; 69734; 69872; 69942; 70096; 70384; 70736;
   70864; 71248; 71360; 71472; 71904; 72016; 72784; 73040; 73120; 92768;
   92864; 93008; 120782; 120792; 120802; 120812; 120822; 123200; 123632;
   125264; 130032]%N.

(** Digits that are not decimal (superscripts, circled digits, ...). *)
Definition other_digit_ranges : list (N * N) :=
  [(178, 179); (185, 185); (4969, 4977); (6618, 6618); (8304, 8304);
   (8308, 8313); (8320, 8329); (9312, 9320); (9332, 9340); (9352, 9360);
   (9450, 9450); (9461, 9469); (9471, 9471); (10102, 10110);
   (10112, 10120); (10122, 10130); (68160, 68163); (69216, 69224);
   (69714, 69722); (127232, 127242)]%N.

(** The decimal value of a code point, when it is a decimal digit. *)
Definition todecimal (c : N) : option Z :=
  match List.find (fun s => (s <=? c) && (c <=? s + 9))%N decimal_runs with
  | Some s => Some (Z.of_N (c - s))
  | None => None
  end.

Definition isdigit_char (c : N) : bool :=
  match todecimal c with
  | Some _ => true
  | None => existsb (fun r => (r.1 <=? c) && (c <=? r.2))%N other_digit_ranges
  end.

(** [s.isdigit()] *)
Definition isdigit (s : str) : bool :=
  match s with
  | [] => false
  | _ => forallb isdigit_char s
  end.

(** The longest digit string [int] converts (the interpreter's default). *)
Definition int_max_str_digits : nat := 4300.

Fixpoint decimal_value (acc : Z) (s : str) : option Z :=
  match s with
  | [] => Some acc
  | c :: s' =>
      match todecimal c with
      | Some v => decimal_value (acc * 10 + v) s'
      | None => None
      end
  end.

(** [int(s)] for an [s] made of digits only, where the program calls it
    (no sign, no underscore, no space around): every character has to be a
    decimal digit. *)
Definition int (s : str) : result Z :=
  if (int_max_str_digits <? length s)%nat then Raise (ValueError (InvalidLiteral s))
  else
    match s, decimal_value 0 s with
    | _ :: _, Some n => Ok n
    | _, _ => Raise (ValueError (InvalidLiteral s))
    end.

(** Dropping the leading, then the trailing, characters that satisfy [p]. *)
Fixpoint lstrip_by (p : N -> bool) (s : str) : str :=
  match s with
  | [] => []
  | c :: s' => if p c then lstrip_by p s' else s
  end.

Fixpoint rstrip_by (p : N -> bool) (s : str) : str :=
  match s with
  | [] => []
  | c :: s' =>
      match rstrip_by p s' with
      | [] => if p c then [] else [c]
      | r => c :: r
      end
  end.

Definition strip_by (p : N -> bool) (s : str) : str :=
  rstrip_by p (lstrip_by p s).

(** [s.strip()] *)
Definition strip (s : str) : str := strip_by isspace s.

(** [s.strip(chars)] *)
Definition strip_chars (chars : str) (s : str) : str :=
  strip_by (fun c => bool_decide (c ∈ chars)) s.

(** [re.sub(r"[class]+", repl, s)]: every maximal run of characters of the
    class is replaced by [repl]. *)
Fixpoint sub_runs_go (p : N -> bool) (repl : str) (in_run : bool) (s : str) : str :=
  match s with
  | [] => []
  | c :: s' =>
      if p c then
        if in_run then sub_runs_go p repl true s'
        else repl ++ sub_runs_go p repl true s'
      else c :: sub_runs_go p repl false s'
  end.

Definition sub_runs (p : N -> bool) (repl : str) (s : str) : str :=
  sub_runs_go p repl false s.

(** [s.startswith(prefix)] *)
Fixpoint startswith (s prefix : str) {struct prefix} : bool :=
  match prefix, s with
  | [], _ => true
  | _ :: _, [] => false
  | c :: prefix', c' :: s' => (c =? c')%N && startswith s' prefix'
  end.

(** [s.split(sep)] for a separator of one character. *)
Fixpoint split (sep : N) (s : str) : list str :=
  match s with
  | [] => [[]]
  | c :: s' =>
      if (c =? sep)%N then [] :: split sep s'
      else
        match split sep s' with
        | seg :: segs => (c :: seg) :: segs
        | [] => [[c]]
        end
  end.

(** [s.split(sep, 1)] for an [s] that contains [sep]: the text before the
    first [sep] and the text after it. *)
Fixpoint split_first (sep : N) (s : str) : str * str :=
  match s with
  | [] => ([], [])
  | c :: s' =>
      if (c =? sep)%N then ([], s')
      else let '(a, b) := split_first sep s' in (c :: a, b)
  end.

(** [s.lower()] on ASCII text: the only text the program lowers is what
    the substitution of [[^a-zA-Z0-9]+] by a hyphen leaves. *)
Definition lower_char (c : N) : N :=
  if ((65 <=? c) && (c <=? 90))%N then (c + 32)%N else c.

Definition lower (s : str) : str := map lower_char s.

(** [str(n)] and the format [{n}] *)
Fixpoint uint_chars (u : Decimal.uint) : str :=
  match u with
  | Decimal.Nil => []
  | Decimal.D0 u' => 48%N :: uint_chars u'
  | Decimal.D1 u' => 49%N :: uint_chars u'
  | Decimal.D2 u' => 50%N :: uint_chars u'
  | Decimal.D3 u' => 51%N :: uint_chars u'
  | Decimal.D4 u' => 52%N :: uint_chars u'
  | Decimal.D5 u' => 53%N :: uint_chars u'
  | Decimal.D6 u' => 54%N :: uint_chars u'
  | Decimal.D7 u' => 55%N :: uint_chars u'
  | Decimal.D8 u' => 56%N :: uint_chars u'
  | Decimal.D9 u' => 57%N :: uint_chars u'
  end.

Definition hyphen : N := 45.

Definition of_int (n : Z) : str :=
  match Z.to_int n with
  | Decimal.Pos u => uint_chars u
  | Decimal.Neg u => hyphen :: uint_chars u
  end.

(** The format [{n:0Wd}]: zeros between the sign and the digits up to a
    width of [w]. *)
Definition of_int_padded (w : nat) (n : Z) : str :=
  match Z.to_int n with
  | Decimal.Pos u =>
      let ds := uint_chars u in replicate (w - length ds) 48%N ++ ds
  | Decimal.Neg u =>
      let ds := uint_chars u in
      hyphen :: replicate (w - 1 - length ds) 48%N ++ ds
  end.

End Text.

(** ** Dates (datetime.date) *)

(** The values of a C int. The date constructor takes its three arguments
    as C ints: for an argument outside this range it gives up with
    OverflowError before it checks anything. *)
Definition fits_int (z : Z) : Prop := - 2 ^ 31 <= z < 2 ^ 31.

#[global] Instance fits_int_dec (z : Z) : Decision (fits_int z).
Proof. unfold fits_int. apply _. Defined.

Module Date.

Definition MINYEAR : Z := 1.
Definition MAXYEAR : Z := 9999.

Definition is_leap (y : Z) : bool :=
  (y mod 4 =? 0) && (negb (y mod 100 =? 0) || (y mod 400 =? 0)).

Definition _days_in_month : list Z :=
  [0; 31; 28; 31; 30; 31; 30; 31; 31; 30; 31; 30; 31].

Definition _days_before_month : list Z :=
  [0; 0; 31; 59; 90; 120; 151; 181; 212; 243; 273; 304; 334].

Definition days_in_month (y m : Z) : Z :=
  if (m =? 2) && is_leap y then 29
  else nth (Z.to_nat m) _days_in_month 0.

Definition days_before_month (y m : Z) : Z :=
  let days := nth (Z.to_nat m) _days_before_month 0 in
  if (2 <? m) && is_leap y then days + 1 else days.

Definition days_before_year (year : Z) : Z :=
  let y := year - 1 in
  y * 365 + y / 4 - y / 100 + y / 400.

Definition ymd_to_ord (y m d : Z) : Z :=
  days_before_year y + days_before_month y m + d.

(** The argument check of the constructor. *)
Definition check_date_args (y m d : Z) : bool :=
  (MINYEAR <=? y) && (y <=? MAXYEAR) &&
  (1 <=? m) && (m <=? 12) &&
  (1 <=? d) && (d <=? days_in_month y m).

(** A [date] is a year, a month and a day that passed the check: the type
    has no other values. *)
Record date : Type := Date {
  year : Z;
  month : Z;
  day : Z;
  date_wf : Is_true (check_date_args year month day)
}.

Lemma check_date_args_spec (y m d : Z) :
  Is_true (check_date_args y m d) <->
  MINYEAR <= y <= MAXYEAR /\ 1 <= m <= 12 /\ 1 <= d <= days_in_month y m.
Proof.
  unfold check_date_args.
  rewrite !andb_True, !Is_true_true, !Z.leb_le. tauto.
Qed.

Lemma days_in_month_range (y m : Z) :
  1 <= m <= 12 -> 28 <= days_in_month y m <= 31.
Proof.
  intros Hm. unfold days_in_month.
  assert (Hc : m = 1 \/ m = 2 \/ m = 3 \/ m = 4 \/ m = 5 \/ m = 6 \/ m = 7 \/
               m = 8 \/ m = 9 \/ m = 10 \/ m = 11 \/ m = 12) by lia.
  destruct (is_leap y);
    repeat (destruct Hc as [-> | Hc]; [ simpl; lia | ]); subst; simpl; lia.
Qed.

Lemma days_in_month_december (y : Z) : days_in_month y 12 = 31.
Proof. reflexivity. Qed.

Lemma bounds (dt : date) :
  1 <= year dt <= 9999 /\ 1 <= month dt <= 12 /\
  1 <= day dt <= days_in_month (year dt) (month dt) /\ day dt <= 31.
Proof.
  destruct dt as [y m d H]; simpl.
  apply check_date_args_spec in H. unfold MINYEAR, MAXYEAR in H.
  pose proof (days_in_month_range y m). lia.
Qed.

Lemma check_date_args_fits (y m d : Z) :
  Is_true (check_date_args y m d) -> fits_int y /\ fits_int m /\ fits_int d.
Proof.
  intros (Hy & Hm & Hd)%check_date_args_spec.
  pose proof (days_in_month_range y m Hm).
  unfold MINYEAR, MAXYEAR in Hy. unfold fits_int. lia.
Qed.

(** [date(y, m, d)]: the arguments are converted to C ints, which fails
    with OverflowError, and then checked, which fails with ValueError. *)
Definition new (y m d : Z) : result date :=
  if decide (fits_int y /\ fits_int m /\ fits_int d) then
    match decide (Is_true (check_date_args y m d)) with
    | left H => Ok (Date y m d H)
    | right _ => Raise (ValueError DateOutOfRange)
    end
  else Raise OverflowError.

Definition toordinal (dt : date) : Z :=
  ymd_to_ord (year dt) (month dt) (day dt).

(** Monday is 0, Sunday is 6. *)
Definition weekday (dt : date) : Z :=
  (toordinal dt + 6) mod 7.

(** Comparison is that of the triples (year, month, day). *)
Definition ltb (a b : date) : bool :=
  (year a <? year b) ||
  ((year a =? year b) &&
   ((month a <? month b) ||
    ((month a =? month b) && (day a <? day b)))).

Definition lt (a b : date) : Prop := Is_true (ltb a b).

Definition fields (dt : date) : Z * Z * Z := (year dt, month dt, day dt).

Lemma date_ext (a b : date) : fields a = fields b -> a = b.
Proof.
  destruct a as [ya ma da Ha], b as [yb mb db Hb]; unfold fields; simpl.
  intros [= -> -> ->]. f_equal. apply proof_irrel.
Qed.

#[global] Instance fields_inj : Inj (=) (=) fields.
Proof. intros a b. apply date_ext. Qed.

#[global] Instance date_eq_dec : EqDecision date.
Proof.
  intros a b. destruct (decide (fields a = fields b)) as [E | NE].
  - left. by apply date_ext.
  - right. by intros ->.
Defined.

Definition of_fields (t : Z * Z * Z) : option date :=
  match new t.1.1 t.1.2 t.2 with
  | Ok dt => Some dt
  | Raise _ => None
  end.

Lemma of_fields_fields (dt : date) : of_fields (fields dt) = Some dt.
Proof.
  destruct dt as [y m d H]. unfold of_fields, new, fields; simpl.
  rewrite decide_True by (by apply check_date_args_fits).
  destruct (decide _) as [H' | []]; [ | exact H ].
  f_equal. by apply date_ext.
Qed.

#[global] Instance date_countable : Countable date :=
  inj_countable fields of_fields of_fields_fields.

Definition le (a b : date) : Prop := lt a b \/ a = b.

(** [d - timedelta(days=1)]: the day before in the calendar; the result
    is range-checked and the date before 0001-01-01 does not exist. *)
Definition normalize_minus_one (y m d : Z) : Z * Z * Z :=
  if 1 <? d then (y, m, d - 1)
  else if 1 <? m then (y, m - 1, days_in_month y (m - 1))
  else (y - 1, 12, 31).

Definition sub_one_day (dt : date) : result date :=
  let '(y, m, d) := normalize_minus_one (year dt) (month dt) (day dt) in
  match decide (Is_true (check_date_args y m d)) with
  | left H => Ok (Date y m d H)
  | right _ => Raise OverflowError
  end.

(** [d + timedelta(days=1)]: the day after; there is none after
    9999-12-31. *)
Definition normalize_plus_one (y m d : Z) : Z * Z * Z :=
  if d <? days_in_month y m then (y, m, d + 1)
  else if m <? 12 then (y, m + 1, 1)
  else (y + 1, 1, 1).

Definition add_one_day (dt : date) : result date :=
  let '(y, m, d) := normalize_plus_one (year dt) (month dt) (day dt) in
  match decide (Is_true (check_date_args y m d)) with
  | left H => Ok (Date y m d H)
  | right _ => Raise OverflowError
  end.

End Date.

Abbreviation date := Date.date.

(** ** The working-day predicate *)

Definition is_working_day (d : date) (non_working : gset date)
    (covered_years : gset Z) : bool :=
  if decide (Date.year d ∈ covered_years) then
    bool_decide (d ∉ non_working)
  else if 5 <=? Date.weekday d then false
  else bool_decide (d ∉ non_working).

(** ** The backward shift *)

(** The order of dates read on one integer. *)
Definition key (d : date) : Z :=
  (Date.year d * 16 + Date.month d) * 32 + Date.day d.

Lemma lt_key (a b : date) : Date.lt a b <-> key a < key b.
Proof.
  pose proof (Date.bounds a). pose proof (Date.bounds b).
  unfold Date.lt, Date.ltb, key.
  rewrite !orb_True, !andb_True, !orb_True, !andb_True, !Is_true_true,
    !Z.ltb_lt, !Z.eqb_eq.
  lia.
Qed.

Lemma key_inj (a b : date) : key a = key b -> a = b.
Proof.
  pose proof (Date.bounds a). pose proof (Date.bounds b).
  unfold key. intros E. apply Date.date_ext. unfold Date.fields.
  assert (Date.year a = Date.year b) by lia.
  assert (Date.month a = Date.month b) by lia.
  assert (Date.day a = Date.day b) by lia.
  congruence.
Qed.

Lemma le_key (a b : date) : Date.le a b <-> key a <= key b.
Proof.
  unfold Date.le. rewrite lt_key. split.
  - intros [? | ->]; lia.
  - intros H. destruct (decide (key a = key b)) as [E | ?].
    + right. by apply key_inj.
    + left. lia.
Qed.

(** The day before is the immediate predecessor in the order. *)
Lemma sub_one_day_pred (d d' e : date) :
  Date.sub_one_day d = Ok d' -> (Date.lt e d <-> Date.le e d').
Proof.
  rewrite lt_key, le_key.
  pose proof (Date.bounds d) as Hd. pose proof (Date.bounds d') as Hd'.
  pose proof (Date.bounds e) as He.
  assert (Date.year e = Date.year d -> Date.month e = Date.month d - 1 ->
          Date.day e <= Date.days_in_month (Date.year d) (Date.month d - 1))
    as Hdim by (intros <- <-; lia).
  unfold Date.sub_one_day, Date.normalize_minus_one, key.
  repeat case_match; intros; simplify_eq; simpl in *; lia.
Qed.

Lemma sub_one_day_lt (d d' : date) :
  Date.sub_one_day d = Ok d' -> Date.lt d' d.
Proof. intros H. apply (sub_one_day_pred d d' d' H). by right. Qed.

(** Dates are bounded below, so their order is well founded; the loop
    steps down in it. *)
Lemma date_lt_wf : well_founded Date.lt.
Proof.
  apply (wf_projected (fun a b => 0 <= a < b) key); [ | apply Z.lt_wf ].
  intros a b Hab. apply lt_key in Hab. pose proof (Date.bounds a).
  unfold key in *. lia.
Qed.

(** The outer layers of the accessibility proof are built without
    looking into [date_lt_wf], so that the loop below evaluates. *)
#[local] Instance date_lt_WellFounded : WellFounded Date.lt :=
  Acc_intro_generator 12 date_lt_wf.

(** Keeps the equation when matching on a computed value. *)
Definition inspect {A : Type} (x : A) : { y : A | x = y } := exist _ x eq_refl.

Equations shift_to_previous_working_day (d : date) (non_working : gset date)
    (covered_years : gset Z) : result date by wf d Date.lt :=
  shift_to_previous_working_day d nw cy with is_working_day d nw cy := {
    | true => Ok d
    | false with inspect (Date.sub_one_day d) := {
        | exist _ (Ok d') E => shift_to_previous_working_day d' nw cy
        | exist _ (Raise e) _ => Raise e } }.
Next Obligation. intros. by apply sub_one_day_lt. Qed.

(** ** The day classifier *)

Definition normalize_text (s : str) : str :=
  Text.sub_runs Text.isspace (Text.lit " ") (Text.strip s).

Definition PRE_HOLIDAY : str := Eval vm_compute in Text.lit "Предпраздничный день".
Definition DAY_OFF_PERIOD : str := Eval vm_compute in Text.lit "Выходной день.".
Definition DAY_OFF : str := Eval vm_compute in Text.lit "Выходной день".

Definition holiday : str := Eval vm_compute in Text.lit "holiday".
Definition dayoff : str := Eval vm_compute in Text.lit "dayoff".
Definition shortened : str := Eval vm_compute in Text.lit "shortened".

(** [None] stands for a working day. *)
Definition classify_day (hint : str) : option str :=
  let hint := normalize_text hint in
  if Text.startswith hint PRE_HOLIDAY then Some shortened
  else if Text.startswith hint DAY_OFF_PERIOD then Some holiday
  else if Text.startswith hint DAY_OFF then Some dayoff
  else None.

Definition period : N := 46.

(** The classifier in the words of the design document: the hint with its
    whitespace runs collapsed to single spaces and then trimmed is matched
    against the markers in their order of precedence. *)
Definition reference_normalize (hint : str) : str :=
  Text.strip (Text.sub_runs Text.isspace (Text.lit " ") hint).

Inductive reference_classify (hint : str) : option str -> Prop :=
  | Ref_shortened :
      PRE_HOLIDAY `prefix_of` reference_normalize hint ->
      reference_classify hint (Some shortened)
  | Ref_holiday :
      ¬ PRE_HOLIDAY `prefix_of` reference_normalize hint ->
      (DAY_OFF ++ [period]) `prefix_of` reference_normalize hint ->
      reference_classify hint (Some holiday)
  | Ref_dayoff :
      ¬ PRE_HOLIDAY `prefix_of` reference_normalize hint ->
      ¬ (DAY_OFF ++ [period]) `prefix_of` reference_normalize hint ->
      DAY_OFF `prefix_of` reference_normalize hint ->
      reference_classify hint (Some dayoff)
  | Ref_working :
      ¬ PRE_HOLIDAY `prefix_of` reference_normalize hint ->
      ¬ (DAY_OFF ++ [period]) `prefix_of` reference_normalize hint ->
      ¬ DAY_OFF `prefix_of` reference_normalize hint ->
      reference_classify hint None.

(** ** The non-working calendar *)

(** [enumerate(l, start)] *)
Fixpoint enumerate {A : Type} (start : Z) (l : list A) : list (Z * A) :=
  match l with
  | [] => []
  | x :: l' => (start, x) :: enumerate (start + 1) l'
  end.

(** A [for] loop whose body may raise: the state is threaded through the
    items in order and the first exception ends the loop. *)
Fixpoint for_each {A S : Type} (items : list A) (body : S -> A -> result S)
    (s : S) : result S :=
  match items with
  | [] => Ok s
  | x :: items' => s' ← body s x; for_each items' body s'
  end.

(** The dictionaries are finite maps; their items are visited in the
    order of [map_to_list]. The order only decides which of several
    failing entries raises first, and all of them raise the same
    exception. *)
Definition build_non_working_dates
    (months_by_year : gmap Z (list (gmap Z str))) : result (gset date) :=
  for_each (map_to_list months_by_year) (fun non_working '(y, months) =>
    for_each (enumerate 1 months) (fun non_working '(m, days_map) =>
      for_each (map_to_list days_map) (fun non_working '(d, kind) =>
        if bool_decide (kind ∈ [holiday; dayoff]) then
          dt ← Date.new y m d;
          Ok (non_working ∪ {[ dt ]})
        else Ok non_working)
      non_working)
    non_working)
  ∅.

(** What the calendars record: day [d] of month [m] (counted from 1 along
    the list of month maps) of year [y] has kind [kind]. *)
Definition recorded (months_by_year : gmap Z (list (gmap Z str)))
    (y m d : Z) (kind : str) : Prop :=
  exists (months : list (gmap Z str)) (days_map : gmap Z str),
    months_by_year !! y = Some months /\
    1 <= m /\ months !! Z.to_nat (m - 1) = Some days_map /\
    days_map !! d = Some kind.

(** The triple denotes a date of the calendar. *)
Definition is_date (y m d : Z) : Prop := Is_true (Date.check_date_args y m d).

(** The three loops as one, over every recorded entry. *)
Definition entries (months_by_year : gmap Z (list (gmap Z str)))
    : list (Z * Z * Z * str) :=
  ym ← map_to_list months_by_year;
  mdm ← enumerate 1 ym.2;
  dk ← map_to_list mdm.2;
  [(ym.1, mdm.1, dk.1, dk.2)].

Definition add_entry (non_working : gset date) (e : Z * Z * Z * str)
    : result (gset date) :=
  let '(y, m, d, kind) := e in
  if bool_decide (kind ∈ [holiday; dayoff]) then
    dt ← Date.new y m d;
    Ok (non_working ∪ {[ dt ]})
  else Ok non_working.

(** ** The rule parser *)

Definition semicolon : N := 59.
Definition colon : N := 58.

Definition is_empty (s : str) : bool :=
  match s with [] => true | _ => false end.

(** [rules.sort(key=lambda x: x[0])]: a stable sort on the day. *)
Fixpoint insert_by_day (r : Z * str) (l : list (Z * str)) : list (Z * str) :=
  match l with
  | [] => [r]
  | r' :: l' => if r.1 <=? r'.1 then r :: l else r' :: insert_by_day r l'
  end.

Definition sort_by_day (l : list (Z * str)) : list (Z * str) :=
  foldr insert_by_day [] l.

(** The body of the loop over the parts. *)
Definition parse_part (rules : list (Z * str)) (part : str)
    : result (list (Z * str)) :=
  if negb (bool_decide (colon ∈ part)) then
    Raise (ValueError (InvalidRule part))
  else
    let '(day_s, label) := Text.split_first colon part in
    let day_s := Text.strip day_s in
    let label := Text.strip label in
    if negb (Text.isdigit day_s) then
      Raise (ValueError (InvalidDay day_s part))
    else
      day ← Text.int day_s;
      if (day <? 1) || (31 <? day) then
        Raise (ValueError (DayOutOfRange part))
      else if is_empty label then
        Raise (ValueError (EmptyLabel part))
      else Ok (rules ++ [(day, label)]).

Definition parse_rules (rules_str : str) : result (list (Z * str)) :=
  let rules_str := Text.strip rules_str in
  if is_empty rules_str then Raise (ValueError RulesStringEmpty)
  else
    let parts :=
      map Text.strip
        (filter (fun p => Text.strip p ≠ []) (Text.split semicolon rules_str)) in
    rules ← for_each parts parse_part [];
    Ok (sort_by_day rules).

(** The parts the loop of [parse_rules] visits. *)
Definition parts_of (rules_str : str) : list str :=
  map Text.strip
    (filter (fun p => Text.strip p ≠ [])
       (Text.split semicolon (Text.strip rules_str))).

(** The two kinds of error of the design document, read on the messages. *)
Definition EmptyRuleSet (e : exn) : Prop := e = ValueError RulesStringEmpty.

Definition MalformedRule (e : exn) : Prop :=
  match e with
  | ValueError (InvalidRule _) | ValueError (InvalidDay _ _)
  | ValueError (InvalidLiteral _) | ValueError (DayOutOfRange _)
  | ValueError (EmptyLabel _) => True
  | _ => False
  end.

(** A non-negative integer literal and its value: decimal digits, at
    least one. *)
Definition integer_literal (s : str) (n : Z) : Prop :=
  s ≠ [] /\ Text.decimal_value 0 s = Some n.

(** More digits than [int] converts, leading zeros counted. *)
Definition over_digit_limit (s : str) : Prop :=
  (Text.int_max_str_digits < length s)%nat.

(** The defects of a part: no colon; or, cut at its first colon, a day
    portion that is not an integer literal or has more digits than [int]
    converts, a day outside 1..31 or a label that is empty once trimmed. *)
Definition defective (part : str) : Prop :=
  colon ∉ part \/
  exists day_s label : str,
    part = day_s ++ colon :: label /\ (colon ∉ day_s) /\
    ((forall n, ¬ integer_literal (Text.strip day_s) n) \/
     over_digit_limit (Text.strip day_s) \/
     (exists n, integer_literal (Text.strip day_s) n /\ ¬ (1 <= n <= 31)) \/
     Text.strip label = []).

(** ** Events *)

(** An instant, as read from the clock. *)
Definition timestamp : Type := Z.

Record Event : Type := {
  summary : str;
  dtstart : date;
  dtend : date;
  dtstamp : timestamp;
  uid : str;
  description : option str
}.

Definition is_alnum (c : N) : bool :=
  ((97 <=? c) && (c <=? 122) || (65 <=? c) && (c <=? 90) ||
   (48 <=? c) && (c <=? 57))%N.

(** The part of the identifier that comes from the label. *)
Definition safe_of (summary : str) : str :=
  let s :=
    Text.lower
      (Text.strip_chars (Text.lit "-")
         (Text.sub_runs (fun c => negb (is_alnum c)) (Text.lit "-") summary)) in
  if is_empty s then Text.lit "event" else s.

Definition make_uid (base_year base_month base_day : Z) (summary : str) : str :=
  Text.lit "ru-salary-" ++ Text.of_int base_year ++
  Text.of_int_padded 2 base_month ++ Text.of_int_padded 2 base_day ++
  Text.lit "-" ++ safe_of summary ++ Text.lit "@salary-ics".

(** [d.isoformat()] *)
Definition isoformat (d : date) : str :=
  Text.of_int_padded 4 (Date.year d) ++ Text.lit "-" ++
  Text.of_int_padded 2 (Date.month d) ++ Text.lit "-" ++
  Text.of_int_padded 2 (Date.day d).

(** [now] is what [datetime.now(UTC)] returns at this call. *)
Definition make_salary_event (now : timestamp)
    (base_year base_month base_day : Z) (actual_day : date) (summary : str)
    : result Event :=
  end_day ← Date.add_one_day actual_day;
  let uid := make_uid base_year base_month base_day summary in
  base_date ← Date.new base_year base_month base_day;
  let description :=
    if decide (actual_day ≠ base_date) then
      Some (Text.lit "Shifted from " ++ isoformat base_date ++
            Text.lit " to " ++ isoformat actual_day ++
            Text.lit " (non-working day).")
    else None in
  Ok {| summary := summary; dtstart := actual_day; dtend := end_day;
        dtstamp := now; uid := uid; description := description |}.

(** [range(lo, hi)] *)
Definition range (lo hi : Z) : list Z := seqZ lo (hi - lo).

(** [clock k] is the reading of the clock after [k] earlier readings; the
    count is threaded through the calls as [tick]. *)
Definition generate_salary_events (clock : nat -> timestamp) (tick : nat)
    (year : Z) (non_working : gset date) (covered_years : gset Z)
    (rules : list (Z * str)) : result (list Event) :=
  for_each (range 1 13) (fun events month =>
    for_each rules (fun events '(day, label) =>
      match Date.new year month day with
      | Raise (ValueError _) => Ok events
      | Raise e => Raise e
      | Ok base =>
          actual ← shift_to_previous_working_day base non_working covered_years;
          e ← make_salary_event (clock (tick + length events)%nat)
                 year month day actual label;
          Ok (events ++ [e])
      end)
    events)
  [].

(** The loop of [main] over the requested years: it stops at the first
    year without a calendar. *)
Fixpoint collect_events (clock : nat -> timestamp) (years : list Z)
    (non_working : gset date) (covered_years : gset Z)
    (rules : list (Z * str)) (events : list Event) : result (list Event) :=
  match years with
  | [] => Ok events
  | year :: years' =>
      if decide (year ∉ covered_years) then Ok events
      else
        es ← generate_salary_events clock (length events) year
               non_working covered_years rules;
        collect_events clock years' non_working covered_years rules
          (events ++ es)
  end.

(** The (month, rule) combinations in the order the loops visit them. *)
Definition combos (rules : list (Z * str)) : list (Z * (Z * str)) :=
  month ← range 1 13; pair month <$> rules.

(** The body of the inner loop of [generate_salary_events]. *)
Definition generate_step (clock : nat -> timestamp) (tick : nat) (year : Z)
    (non_working : gset date) (covered_years : gset Z)
    (events : list Event) (c : Z * (Z * str)) : result (list Event) :=
  match Date.new year c.1 c.2.1 with
  | Raise (ValueError _) => Ok events
  | Raise e => Raise e
  | Ok base =>
      actual ← shift_to_previous_working_day base non_working covered_years;
      e ← make_salary_event (clock (tick + length events)%nat)
             year c.1 c.2.1 actual c.2.2;
      Ok (events ++ [e])
  end.

(** [e] is the event of the combination [c] in year [y]: it starts on the
    shifted date, lasts one day, carries the label and the identifier of
    the intended date. *)
Definition event_for (y : Z) (non_working : gset date) (covered_years : gset Z)
    (c : Z * (Z * str)) (e : Event) : Prop :=
  exists base : date,
    Date.new y c.1 c.2.1 = Ok base /\
    shift_to_previous_working_day base non_working covered_years = Ok (dtstart e) /\
    Date.add_one_day (dtstart e) = Ok (dtend e) /\
    summary e = c.2.2 /\
    uid e = make_uid y c.1 c.2.1 c.2.2.

(** The years [collect_events] generates for: those before the first one
    without a calendar. *)
Fixpoint covered_prefix (years : list Z) (covered_years : gset Z) : list Z :=
  match years with
  | [] => []
  | year :: years' =>
      if decide (year ∉ covered_years) then []
      else year :: covered_prefix years' covered_years
  end.

(** The (year, month, rule) combinations of a run whose date exists. *)
Definition run_combos (years : list Z) (covered_years : gset Z)
    (rules : list (Z * str)) : list (Z * (Z * (Z * str))) :=
  year ← covered_prefix years covered_years;
  pair year <$> filter (fun c => is_date year c.1 c.2.1) (combos rules).

(** The part of a rule the identifier keeps: the day and what [safe_of]
    leaves of the label. *)
Definition rule_key (r : Z * str) : Z * str := (r.1, safe_of r.2).

(** ** Auxiliary definitions of the proofs *)

(** [n] single-day steps back. *)
Fixpoint days_back (n : nat) (d : date) : result date :=
  match n with
  | O => Ok d
  | S n' => d' ← Date.sub_one_day d; days_back n' d'
  end.

(** The ASCII digits. *)
Definition is_decimal_digit (c : N) : bool := ((48 <=? c) && (c <=? 57))%N.

(** Lower-case ASCII letters, digits and the hyphen. *)
Definition is_slug_char (c : N) : bool :=
  ((97 <=? c) && (c <=? 122) || (48 <=? c) && (c <=? 57) || (c =? 45))%N.

(** Reading back a field of two digits. *)
Definition of_two_digits (s : str) : Z :=
  match s with
  | [a; b] => (Z.of_N a - 48) * 10 + (Z.of_N b - 48)
  | _ => 0
  end.

(** ** Sample inputs *)

(** January 2024 with the 1st a holiday and the 9th shortened. *)
Definition january_2024 : gmap Z (list (gmap Z str)) :=
  {[ 2024 := [ {[ 1 := holiday; 9 := shortened ]} ] ]}.

Definition monday_1_jan_2024 : date := Date.Date 2024 1 1 I.
Definition friday_5_jan_2024 : date := Date.Date 2024 1 5 I.
Definition tuesday_9_jan_2024 : date := Date.Date 2024 1 9 I.
Definition saturday_6_jan_2024 : date := Date.Date 2024 1 6 I.
Definition sunday_7_jan_2024 : date := Date.Date 2024 1 7 I.

Definition no_dates : gset date := ∅.
Definition no_years : gset Z := ∅.

Definition zero_clock : nat -> timestamp := fun _ => 0.
Definition counting_clock : nat -> timestamp := fun k => Z.of_nat k.

Definition day_7_salary : list (Z * str) := [(7, Text.lit "Salary")].
Definition day_31_salary : list (Z * str) := [(31, Text.lit "Salary")].
Definition default_rules : list (Z * str) :=
  [(5, Text.lit "Salary"); (20, Text.lit "Mid-month pay")].
Definition salary_twice : list (Z * str) :=
  [(5, Text.lit "Salary"); (5, Text.lit "salary")].

Definition default_rules_text : str := Text.lit "5:Salary;20:Mid-month pay".

(** A day written with 4301 digits, "00..05", and a rule for it. *)
Definition day_of_4301_digits : str := replicate 4300 48%N ++ Text.lit "5".
Definition rule_of_4301_digits : str := day_of_4301_digits ++ Text.lit ":x".
Definition only_separators : str := Text.lit ";;".
Definition new_year_hint : str := Text.lit "  Выходной   день. Новый год ".

(** Twelve month maps, 30 February a holiday. *)
Definition february_30 : gmap Z (list (gmap Z str)) :=
  {[ 2024 := [ ∅; {[ 30 := holiday ]}; ∅; ∅; ∅; ∅; ∅; ∅; ∅; ∅; ∅; ∅ ] ]}.

(** ** Normal forms of text *)

(** Every whitespace character is a space (U+0020) that some character
    other than whitespace follows. *)
Fixpoint single_spaced (s : str) : bool :=
  match s with
  | [] => true
  | c :: s' =>
      (if Text.isspace c then
         (c =? 32)%N &&
         match s' with
         | c' :: _ => negb (Text.isspace c')
         | [] => false
         end
       else true) && single_spaced s'
  end.

(** No whitespace at either end, and single spaces inside. *)
Definition normalized (s : str) : bool :=
  match s with
  | [] => true
  | c :: _ => negb (Text.isspace c) && single_spaced s
  end.

(** ** The format of the rules *)

(** What a part of the rule text says: the integer before its first colon
    is the day and the trimmed text after it the label. *)
Definition parsed_as (part : str) (r : Z * str) : Prop :=
  exists day_s lab : str,
    part = day_s ++ colon :: lab /\ (colon ∉ day_s) /\
    integer_literal (Text.strip day_s) r.1 /\
    ¬ over_digit_limit (Text.strip day_s) /\ 1 <= r.1 <= 31 /\
    r.2 = Text.strip lab /\ r.2 ≠ [].

(** The text of rules in the format of the [--rules] option,
    "DAY:LABEL;DAY:LABEL". *)
Definition format_rule (r : Z * str) : str := Text.of_int r.1 ++ colon :: r.2.

Fixpoint format_rules (rules : list (Z * str)) : str :=
  match rules with
  | [] => []
  | [r] => format_rule r
  | r :: rules' => format_rule r ++ semicolon :: format_rules rules'
  end.

(** A rule that can be written in that format: a day of 1..31 and a label
    that is not empty, has no whitespace at its ends and no semicolon. It
    may contain colons. *)
Definition writable_rule (r : Z * str) : Prop :=
  1 <= r.1 <= 31 /\ r.2 ≠ [] /\ Text.strip r.2 = r.2 /\ semicolon ∉ r.2.

(** Whether a run of the class is open after [s]. *)
Definition in_run_after (p : N -> bool) (b : bool) (s : str) : bool :=
  match last s with
  | Some c => p c
  | None => b
  end.

(** A label with colons inside. *)
Definition from_9_to_5 : list (Z * str) :=
  [(20, Text.lit "b"); (5, Text.lit "9:00 to 5:00")].

(** ** The alphabet of an identifier *)

(** Lower-case ASCII letters, digits, the hyphen and the at sign. *)
Definition is_uid_char (c : N) : bool := is_slug_char c || (c =? 64)%N.

Definition date_max : date := Date.Date 9999 12 31 I.

(** ** What an event says about its date *)

(** [e] is the event made for the combination [c] of year [y]: the date
    of the combination exists, and the event is what [make_salary_event]
    returns for the shifted date at some reading of the clock. *)
Definition event_made (y : Z) (non_working : gset date) (covered_years : gset Z)
    (c : Z * (Z * str)) (e : Event) : Prop :=
  exists (base actual : date) (now : timestamp),
    Date.new y c.1 c.2.1 = Ok base /\
    shift_to_previous_working_day base non_working covered_years = Ok actual /\
    make_salary_event now y c.1 c.2.1 actual c.2.2 = Ok e.

(** [e] is an all-day event on the nearest working day at or before
    [base], with a description exactly when that day is not [base]. *)
Definition shifted_event (non_working : gset date) (covered_years : gset Z)
    (base : date) (e : Event) : Prop :=
  Date.le (dtstart e) base /\
  is_working_day (dtstart e) non_working covered_years = true /\
  (forall x, Date.lt (dtstart e) x -> Date.le x base ->
     is_working_day x non_working covered_years = false) /\
  Date.toordinal (dtend e) = Date.toordinal (dtstart e) + 1 /\
  (description e = None <-> is_working_day base non_working covered_years = true).

(** ** The calendar *)

(** The properties [build_calendar] sets and the components it adds. *)
Record Calendar : Type := {
  prodid : str;
  version : str;
  calscale : str;
  method : str;
  NAME : str;
  X_WR_CALNAME : str;
  components : list Event
}.

(** [sorted(events, key=lambda x: x.decoded("dtstart"))]: a stable sort on
    the start date, which compares keys with [<] only. *)
Fixpoint insert_by_dtstart (e : Event) (l : list Event) : list Event :=
  match l with
  | [] => [e]
  | e' :: l' =>
      if Date.ltb (dtstart e') (dtstart e) then e' :: insert_by_dtstart e l'
      else e :: l
  end.

Definition sort_by_dtstart (l : list Event) : list Event :=
  foldr insert_by_dtstart [] l.

Definition build_calendar (events : list Event) (calname : str) : Calendar :=
  {| prodid := Text.lit "-//ru-salary-ics//Salary Calendar//EN";
     version := Text.lit "2.0";
     calscale := Text.lit "GREGORIAN";
     method := Text.lit "PUBLISH";
     NAME := calname;
     X_WR_CALNAME := calname;
     components := sort_by_dtstart events |}.

(** [a] does not start after [b]. *)
Definition starts_le (a b : Event) : Prop := Date.le (dtstart a) (dtstart b).

(** ** The run *)

(** What a call of [parse_year] comes to: the month maps of the page, no
    page (the site answers 404), or an exception (the network, or a page
    that does not have twelve months). The page itself is not modelled. *)
Inductive fetched : Type :=
  | Page (months : list (gmap Z str))
  | NoPage
  | FetchError.

(** The first loop of [main]: it asks for the years in turn and stops at
    the first one without data. [None]: [parse_year] raised. *)
Fixpoint load_calendars (parse_year : Z -> fetched) (years : list Z)
    (months_by_year : gmap Z (list (gmap Z str)))
    : option (gmap Z (list (gmap Z str))) :=
  match years with
  | [] => Some months_by_year
  | year :: years' =>
      match parse_year year with
      | FetchError => None
      | NoPage | Page [] => Some months_by_year
      | Page months =>
          load_calendars parse_year years' (<[year := months]> months_by_year)
      end
  end.

(** How a run of [main] ends: with the calendar it writes, with an
    exception of the code modelled here, or with one of [parse_year]. *)
Inductive main_result : Type :=
  | Written (cal : Calendar)
  | Uncaught (e : exn)
  | ParseYearRaised.

(** [main], from the parsed arguments to the calendar that is written:
    reading the command line, logging and writing the file are left
    out. *)
Definition main (parse_year : Z -> fetched) (clock : nat -> timestamp)
    (start_year end_year : Z) (rules_arg calendar_name : str) : main_result :=
  match parse_rules rules_arg with
  | Raise e => Uncaught e
  | Ok rules =>
      let parse_from := start_year - 1 in
      let parse_to := end_year in
      match load_calendars parse_year (range parse_from (parse_to + 1)) ∅ with
      | None => ParseYearRaised
      | Some months_by_year =>
          let covered_years := dom months_by_year in
          match build_non_working_dates months_by_year with
          | Raise e => Uncaught e
          | Ok non_working =>
              match collect_events clock (range start_year (end_year + 1))
                      non_working covered_years rules [] with
              | Raise e => Uncaught e
              | Ok events => Written (build_calendar events calendar_name)
              end
          end
      end
  end.

(** [parse_year] has data for the year. *)
Definition has_page (parse_year : Z -> fetched) (year : Z) : Prop :=
  exists months, parse_year year = Page months /\ months ≠ [].

(** The order in which the loops visit the combinations of a year, and of
    a run: by month and then by day, and by year first. *)
Definition combo_le (c c' : Z * (Z * str)) : Prop :=
  c.1 < c'.1 \/ (c.1 = c'.1 /\ c.2.1 <= c'.2.1).

Definition run_combo_le (x x' : Z * (Z * (Z * str))) : Prop :=
  x.1 < x'.1 \/ (x.1 = x'.1 /\ combo_le x.2 x'.2).

(** Sample pages: data for 2023 and 2024 only. *)
Definition pages_2023_2024 (year : Z) : fetched :=
  if bool_decide (year = 2023) then
    Page [ ∅; ∅; ∅; ∅; ∅; ∅; ∅; ∅; ∅; ∅; ∅; ∅ ]
  else if bool_decide (year = 2024) then
    Page [ {[ 1 := holiday; 6 := dayoff; 7 := dayoff ]};
           ∅; ∅; ∅; ∅; ∅; ∅; ∅; ∅; ∅; ∅; ∅ ]
  else NoPage.

(** A page for 2024 but none for the year before. *)
Definition pages_2024_only (year : Z) : fetched :=
  if bool_decide (year = 2024) then
    Page [ {[ 1 := holiday ]}; ∅; ∅; ∅; ∅; ∅; ∅; ∅; ∅; ∅; ∅; ∅ ]
  else NoPage.

Definition salary_calendar : str := Text.lit "Salary".

(** * Properties *)

(** A decidable proposition settled by evaluating its decision. *)
Ltac decide_by_computation :=
  apply (bool_decide_unpack _); vm_compute; exact I.

(** ** Dates *)

Example weekday_20240101 : Date.weekday (Date.Date 2024 1 1 I) = 0.
Proof. reflexivity. Qed.

Example weekday_date_max : Date.weekday (Date.Date 9999 12 31 I) = 4.
Proof. reflexivity. Qed.

Lemma weekday_range (d : date) : 0 <= Date.weekday d < 7.
Proof. unfold Date.weekday. apply Z.mod_pos_bound. lia. Qed.

(** The day before has the ordinal before, and the weekday before. *)
Lemma is_leap_spec (y : Z) :
  Date.is_leap y = true <-> y mod 4 = 0 /\ (y mod 100 ≠ 0 \/ y mod 400 = 0).
Proof.
  unfold Date.is_leap.
  rewrite andb_true_iff, orb_true_iff, negb_true_iff, !Z.eqb_eq, Z.eqb_neq.
  tauto.
Qed.

Lemma days_before_year_succ (y : Z) :
  Date.days_before_year (y + 1) =
  Date.days_before_year y + (if Date.is_leap y then 366 else 365).
Proof.
  unfold Date.days_before_year.
  destruct (Date.is_leap y) eqn:L.
  - apply is_leap_spec in L. replace (y + 1 - 1) with y by lia.
    Z.div_mod_to_equations. lia.
  - apply not_true_iff_false in L. rewrite is_leap_spec in L.
    replace (y + 1 - 1) with y by lia.
    Z.div_mod_to_equations. lia.
Qed.

Lemma days_before_month_succ (y m : Z) :
  1 <= m < 12 ->
  Date.days_before_month y (m + 1) =
  Date.days_before_month y m + Date.days_in_month y m.
Proof.
  intros Hm.
  assert (m = 1 \/ m = 2 \/ m = 3 \/ m = 4 \/ m = 5 \/ m = 6 \/ m = 7 \/
          m = 8 \/ m = 9 \/ m = 10 \/ m = 11) as Hc by lia.
  unfold Date.days_before_month, Date.days_in_month.
  destruct (Date.is_leap y);
    repeat (destruct Hc as [-> | Hc]; [ reflexivity | ]); subst; reflexivity.
Qed.

Lemma toordinal_sub_one_day (d d' : date) :
  Date.sub_one_day d = Ok d' -> Date.toordinal d' = Date.toordinal d - 1.
Proof.
  pose proof (Date.bounds d) as Hd.
  unfold Date.sub_one_day, Date.normalize_minus_one, Date.toordinal, Date.ymd_to_ord.
  repeat case_match; intros; simplify_eq; simpl.
  - lia.
  - pose proof (days_before_month_succ (Date.year d) (Date.month d - 1)) as Hs.
    replace (Date.month d - 1 + 1) with (Date.month d) in Hs by lia. lia.
  - pose proof (days_before_year_succ (Date.year d - 1)) as Hs.
    replace (Date.year d - 1 + 1) with (Date.year d) in Hs by lia.
    assert (Date.month d = 1) as Hm by lia. assert (Date.day d = 1) as Hday by lia.
    rewrite Hm, Hday, Hs. unfold Date.days_before_month.
    destruct (Date.is_leap (Date.year d - 1)); simpl; lia.
Qed.

Lemma toordinal_add_one_day (d d' : date) :
  Date.add_one_day d = Ok d' -> Date.toordinal d' = Date.toordinal d + 1.
Proof.
  pose proof (Date.bounds d) as Hd.
  unfold Date.add_one_day, Date.normalize_plus_one, Date.toordinal, Date.ymd_to_ord.
  repeat case_match; intros; simplify_eq; simpl.
  - lia.
  - rewrite days_before_month_succ by lia. lia.
  - rewrite days_before_year_succ.
    assert (Date.month d = 12) as Hm by lia. rewrite Hm in *.
    rewrite Date.days_in_month_december in *.
    unfold Date.days_before_month.
    destruct (Date.is_leap (Date.year d)); simpl; lia.
Qed.

Lemma weekday_sub_one_day (d d' : date) :
  Date.sub_one_day d = Ok d' -> Date.weekday d' = (Date.weekday d - 1) mod 7.
Proof.
  intros H. unfold Date.weekday. rewrite (toordinal_sub_one_day d d' H).
  Z.div_mod_to_equations. lia.
Qed.

(** Subtraction fails at 0001-01-01 and nowhere else, with OverflowError. *)
Lemma sub_one_day_raise (d : date) (e : exn) :
  Date.sub_one_day d = Raise e ->
  e = OverflowError /\ Date.fields d = (1, 1, 1).
Proof.
  pose proof (Date.bounds d) as Hd.
  unfold Date.sub_one_day, Date.normalize_minus_one, Date.fields.
  repeat case_match; intros; simplify_eq; split; try done;
  match goal with H : ¬ Is_true _, H' : decide _ = _ |- _ =>
    clear H'; rewrite Date.check_date_args_spec in H;
    rewrite ?Date.days_in_month_december in H end;
  unfold Date.MINYEAR, Date.MAXYEAR in *;
  pose proof (Date.days_in_month_range (Date.year d) (Date.month d - 1));
  repeat f_equal; lia.
Qed.

(** ** C1: the working-day predicate *)

(** C1. In a covered year a date is a working day exactly when it is not in
    the non-working set, whatever its weekday; in a year that is not
    covered it is a working day exactly when its weekday is Monday to
    Friday (0 to 4) and it is not in the non-working set. *)
Theorem is_working_day_spec (d : date) (N : gset date) (C : gset Z) :
  (Date.year d ∈ C -> (is_working_day d N C = true <-> d ∉ N)) /\
  (Date.year d ∉ C ->
     (is_working_day d N C = true <-> (0 <= Date.weekday d < 5 /\ d ∉ N))).
Proof.
  pose proof (weekday_range d) as Hw.
  unfold is_working_day. split; intros HC.
  - rewrite decide_True by done. by rewrite bool_decide_eq_true.
  - rewrite decide_False by done.
    destruct (5 <=? Date.weekday d) eqn:E.
    + apply Z.leb_le in E. split; [done | lia].
    + apply Z.leb_gt in E. rewrite bool_decide_eq_true. split; [ | tauto].
      intros ?. split; [lia | done].
Qed.

(** A Saturday of a covered year that the calendar does not list is a
    working day; the same Saturday is not one without coverage. *)
Lemma is_working_day_spec_witness :
  (is_working_day saturday_6_jan_2024 no_dates {[ 2024 ]} = true <->
     saturday_6_jan_2024 ∉ no_dates) /\
  (is_working_day saturday_6_jan_2024 no_dates no_years = true <->
     (0 <= Date.weekday saturday_6_jan_2024 < 5 /\
      saturday_6_jan_2024 ∉ no_dates)).
Proof.
  split.
  - apply (is_working_day_spec saturday_6_jan_2024 no_dates {[ 2024 ]}).
    by apply elem_of_singleton.
  - apply (is_working_day_spec saturday_6_jan_2024 no_dates no_years).
    apply not_elem_of_empty.
Defined.

(** ** The backward shift *)

(** The loop, one iteration at a time. *)
Lemma shift_unfold (d : date) (N : gset date) (C : gset Z) :
  shift_to_previous_working_day d N C =
  if is_working_day d N C then Ok d
  else d' ← Date.sub_one_day d; shift_to_previous_working_day d' N C.
Proof.
  simp shift_to_previous_working_day.
  destruct (is_working_day d N C); simpl; [done | ].
  by destruct (Date.sub_one_day d).
Qed.

Lemma date_lt_ind (P : date -> Prop) :
  (forall d, (forall d', Date.lt d' d -> P d') -> P d) ->
  forall d, P d.
Proof. apply (well_founded_induction date_lt_wf). Qed.

(** What a returned date satisfies: it is at or before the start, it is a
    working day, and every date after it up to the start is not. *)
Lemma shift_returns (d r : date) (N : gset date) (C : gset Z) :
  shift_to_previous_working_day d N C = Ok r ->
  Date.le r d /\ is_working_day r N C = true /\
  (forall x, Date.lt r x -> Date.le x d -> is_working_day x N C = false).
Proof.
  revert r. induction d as [d IH] using date_lt_ind. intros r.
  rewrite shift_unfold. destruct (is_working_day d N C) eqn:W.
  - intros [= <-]. split; [by right | ]. split; [done | ].
    intros x. rewrite lt_key, le_key. lia.
  - destruct (Date.sub_one_day d) as [d' | e] eqn:Hs; simpl; [ | done ].
    intros Hr. apply IH in Hr as (Hle & Hw & Hbetween);
      [ | by apply sub_one_day_lt ].
    pose proof (sub_one_day_pred d d' r Hs) as Hr'.
    split; [ left; tauto | ]. split; [done | ].
    intros x Hrx Hxd. destruct Hxd as [Hxd | ->]; [ | done ].
    apply Hbetween; [done | ]. by apply (sub_one_day_pred d d' x Hs).
Qed.

Lemma shift_reaches (d e : date) (N : gset date) (C : gset Z) :
  Date.le e d -> is_working_day e N C = true ->
  exists (n : nat) (r : date),
    days_back n d = Ok r /\ shift_to_previous_working_day d N C = Ok r.
Proof.
  induction d as [d IH] using date_lt_ind. intros Hle We.
  rewrite shift_unfold. destruct (is_working_day d N C) eqn:W.
  - by exists 0%nat, d.
  - destruct Hle as [Hlt | ->]; [ | congruence ].
    destruct (Date.sub_one_day d) as [d' | x] eqn:Hs.
    + destruct (IH d') as (n & r & Hn & Hr); [ by apply sub_one_day_lt | | done | ].
      { by apply (sub_one_day_pred d d' e Hs). }
      exists (S n), r. simpl. rewrite Hs. simpl. done.
    + apply sub_one_day_raise in Hs as [_ Hs].
      pose proof (Date.bounds e). apply lt_key in Hlt. unfold key in Hlt.
      unfold Date.fields in Hs. simplify_eq. lia.
Qed.

(** The loop ends by returning or by OverflowError at the first date;
    nothing else is raised. *)
Lemma shift_raises (d : date) (N : gset date) (C : gset Z) (e : exn) :
  shift_to_previous_working_day d N C = Raise e ->
  e = OverflowError /\ forall x, Date.le x d -> is_working_day x N C = false.
Proof.
  induction d as [d IH] using date_lt_ind.
  rewrite shift_unfold. destruct (is_working_day d N C) eqn:W; [done | ].
  destruct (Date.sub_one_day d) as [d' | x] eqn:Hs; simpl.
  - intros Hr. apply IH in Hr as [-> Hall]; [ | by apply sub_one_day_lt ].
    split; [done | ]. intros x [Hlt | ->]; [ | done ].
    apply Hall. by apply (sub_one_day_pred d d' x Hs).
  - intros [= ->]. apply sub_one_day_raise in Hs as [-> Hs]. split; [done | ].
    intros x [Hlt | ->]; [ | done ].
    pose proof (Date.bounds x). apply lt_key in Hlt. unfold key in Hlt.
    unfold Date.fields in Hs. simplify_eq. lia.
Qed.

(** C2. When the shift returns a date r for d, r is the nearest working day
    at or before d: r <= d, r is a working day, and every date strictly
    between r and d is not a working day; when d is a working day, r = d. *)
Theorem shift_to_previous_working_day_nearest
    (d r : date) (N : gset date) (C : gset Z) :
  shift_to_previous_working_day d N C = Ok r ->
  Date.le r d /\
  is_working_day r N C = true /\
  (forall x, Date.lt r x -> Date.lt x d -> is_working_day x N C = false) /\
  (is_working_day d N C = true -> r = d).
Proof.
  intros Hr. pose proof Hr as (Hle & Hw & Hbetween)%shift_returns.
  repeat split; try done.
  - intros x Hrx Hxd. apply Hbetween; [done | by left].
  - intros Wd. rewrite shift_unfold, Wd in Hr. by injection Hr.
Qed.

(** Sunday 7 January 2024, no coverage and an empty calendar: the shift
    returns Friday 5 January. *)
Lemma shift_to_previous_working_day_nearest_witness :
  Date.le friday_5_jan_2024 sunday_7_jan_2024 /\
  is_working_day friday_5_jan_2024 no_dates no_years = true /\
  (forall x, Date.lt friday_5_jan_2024 x -> Date.lt x sunday_7_jan_2024 ->
     is_working_day x no_dates no_years = false) /\
  (is_working_day sunday_7_jan_2024 no_dates no_years = true ->
     friday_5_jan_2024 = sunday_7_jan_2024).
Proof.
  apply (shift_to_previous_working_day_nearest
           sunday_7_jan_2024 friday_5_jan_2024 no_dates no_years).
  vm_compute. reflexivity.
Defined.

(** C9. When some date at or before d is a working day, the loop ends
    normally: finitely many single-day steps back from d reach a working
    day, and that day is what the shift returns. *)
Theorem shift_to_previous_working_day_terminates
    (d e : date) (N : gset date) (C : gset Z) :
  Date.le e d -> is_working_day e N C = true ->
  exists (n : nat) (r : date),
    days_back n d = Ok r /\
    shift_to_previous_working_day d N C = Ok r /\
    is_working_day r N C = true.
Proof.
  intros Hle We.
  destruct (shift_reaches d e N C Hle We) as (n & r & Hn & Hr).
  exists n, r. split; [done | ]. split; [done | ].
  by apply shift_returns in Hr as (_ & ? & _).
Qed.

Lemma shift_to_previous_working_day_terminates_witness :
  exists (n : nat) (r : date),
    days_back n sunday_7_jan_2024 = Ok r /\
    shift_to_previous_working_day sunday_7_jan_2024 no_dates no_years = Ok r /\
    is_working_day r no_dates no_years = true.
Proof.
  apply (shift_to_previous_working_day_terminates
           sunday_7_jan_2024 monday_1_jan_2024 no_dates no_years).
  - left. vm_compute. exact I.
  - vm_compute. reflexivity.
Defined.

(** ** Text: trimming and collapsing runs *)

Section Runs.
Variable p : N -> bool.
Variable sp : N.
Hypothesis p_sp : p sp = true.

Lemma rstrip_by_nil (s : str) :
  Text.rstrip_by p s = [] <-> forallb p s = true.
Proof.
  induction s as [ | c s IH]; simpl; [done | ].
  destruct (Text.rstrip_by p s) as [ | c' r] eqn:E.
  - destruct (p c); simpl; [tauto | ]. split; [done | ]. intros [=].
  - split; [done | ]. rewrite andb_true_iff. intros [_ H].
    apply IH in H. done.
Qed.

Lemma rstrip_by_cons (c : N) (s : str) :
  Text.rstrip_by p (c :: s) =
  if forallb p (c :: s) then [] else c :: Text.rstrip_by p s.
Proof.
  pose proof (rstrip_by_nil s) as Hnil. simpl.
  destruct (Text.rstrip_by p s) as [ | c' r] eqn:E.
  - rewrite (proj1 Hnil eq_refl), andb_true_r. by destruct (p c).
  - destruct (forallb p s); [ | by rewrite andb_false_r ].
    by destruct Hnil as [_ Hnil]; specialize (Hnil eq_refl).
Qed.

Lemma sub_runs_go_all (b : bool) (s : str) :
  forallb p s = true -> forallb p (Text.sub_runs_go p [sp] b s) = true.
Proof.
  revert b. induction s as [ | c s IH]; intros b; simpl; [done | ].
  rewrite andb_true_iff. intros [Hc Hs]. rewrite Hc.
  destruct b; simpl; rewrite ?p_sp; by apply IH.
Qed.

Lemma sub_runs_go_not_all (b : bool) (s : str) :
  forallb p s = false -> forallb p (Text.sub_runs_go p [sp] b s) = false.
Proof.
  revert b. induction s as [ | c s IH]; intros b; simpl; [done | ].
  destruct (p c) eqn:Hc; simpl.
  - intros Hs. destruct b; simpl; rewrite ?p_sp; by apply IH.
  - intros _. by rewrite Hc.
Qed.

Lemma rstrip_by_sub_runs_go (b : bool) (s : str) :
  Text.rstrip_by p (Text.sub_runs_go p [sp] b s) =
  Text.sub_runs_go p [sp] b (Text.rstrip_by p s).
Proof.
  revert b. induction s as [ | c s IH]; intros b; [done | ].
  rewrite (rstrip_by_cons c s).
  destruct (forallb p (c :: s)) eqn:Hall.
  - apply rstrip_by_nil. by apply sub_runs_go_all.
  - simpl in *. destruct (p c) eqn:Hc; simpl in Hall.
    + destruct b; [by apply IH | ].
      change ([sp] ++ ?l) with (sp :: l).
      rewrite rstrip_by_cons. simpl.
      rewrite p_sp, (sub_runs_go_not_all true s Hall). simpl.
      by rewrite IH.
    + rewrite rstrip_by_cons. simpl. rewrite Hc. simpl. by rewrite IH.
Qed.

Lemma lstrip_by_sub_runs_go (b : bool) (s : str) :
  Text.lstrip_by p (Text.sub_runs_go p [sp] b s) =
  Text.sub_runs_go p [sp] false (Text.lstrip_by p s).
Proof.
  revert b. induction s as [ | c s IH]; intros b; simpl; [done | ].
  destruct (p c) eqn:Hc.
  - destruct b; simpl; rewrite ?p_sp; by apply IH.
  - simpl. by rewrite Hc.
Qed.

(** Trimming and collapsing commute. *)
Lemma strip_by_sub_runs (s : str) :
  Text.strip_by p (Text.sub_runs p [sp] s) =
  Text.sub_runs p [sp] (Text.strip_by p s).
Proof.
  unfold Text.strip_by, Text.sub_runs.
  by rewrite lstrip_by_sub_runs_go, rstrip_by_sub_runs_go.
Qed.
End Runs.

Lemma startswith_prefix (s pre : str) :
  Text.startswith s pre = true <-> pre `prefix_of` s.
Proof.
  revert s. induction pre as [ | c pre IH]; intros s; simpl.
  - split; [ intros _; apply prefix_nil | done ].
  - destruct s as [ | c' s].
    + split; [done | ]. intros [k Hk]. discriminate.
    + rewrite andb_true_iff, N.eqb_eq, IH. split.
      * intros [-> H]. by apply prefix_cons.
      * intros H. split.
        -- by apply prefix_cons_inv_1 in H.
        -- by apply prefix_cons_inv_2 in H.
Qed.

(** ** C7: the day classifier *)

Lemma normalize_text_reference (hint : str) :
  normalize_text hint = reference_normalize hint.
Proof.
  unfold normalize_text, reference_normalize, Text.strip.
  change (Text.lit " ") with [32%N].
  symmetry. by apply strip_by_sub_runs.
Qed.

Lemma classify_day_cases (hint : str) :
  let h := reference_normalize hint in
  classify_day hint =
  if decide (PRE_HOLIDAY `prefix_of` h) then Some shortened
  else if decide ((DAY_OFF ++ [period]) `prefix_of` h) then Some holiday
  else if decide (DAY_OFF `prefix_of` h) then Some dayoff
  else None.
Proof.
  intros h. unfold classify_day. rewrite normalize_text_reference. fold h.
  change DAY_OFF_PERIOD with (DAY_OFF ++ [period]).
  repeat case_decide;
    repeat match goal with
    | H : _ `prefix_of` _ |- _ => apply startswith_prefix in H; rewrite H
    | H : ¬ _ `prefix_of` _ |- _ =>
        rewrite <- startswith_prefix in H; apply not_true_is_false in H;
        rewrite H
    end; done.
Qed.

Lemma prefix_heads (a b : N) (l1 l2 h : str) :
  (a :: l1) `prefix_of` h -> (b :: l2) `prefix_of` h -> a = b.
Proof. intros [k1 ->] [k2 E]. by injection E. Qed.

(** C7. [classify_day] is the reference classifier: on the hint with its
    whitespace runs collapsed and then trimmed, the pre-holiday marker
    gives shortened; otherwise the day-off marker followed by a period
    gives holiday; otherwise the bare day-off marker gives dayoff; anything
    else gives no classification. A hint with the day-off-with-period
    pattern is classified holiday, never dayoff. *)
Theorem classify_day_reference :
  (forall (hint : str) (r : option str),
     classify_day hint = r <-> reference_classify hint r) /\
  (forall hint : str,
     (DAY_OFF ++ [period]) `prefix_of` reference_normalize hint ->
     classify_day hint = Some holiday /\ classify_day hint ≠ Some dayoff).
Proof.
  split.
  - intros hint r. rewrite classify_day_cases. split.
    + intros <-. repeat case_decide; by constructor.
    + intros H. destruct H; repeat case_decide; done.
  - intros hint H. rewrite classify_day_cases.
    assert (¬ PRE_HOLIDAY `prefix_of` reference_normalize hint) as Hpre.
    { intros Hp. by pose proof (prefix_heads _ _ _ _ _ Hp H). }
    rewrite decide_False, decide_True by done. done.
Qed.

Lemma classify_day_reference_witness :
  classify_day new_year_hint = Some holiday /\
  classify_day new_year_hint ≠ Some dayoff.
Proof.
  apply (proj2 classify_day_reference new_year_hint).
  apply startswith_prefix. vm_compute. reflexivity.
Defined.

(** ** Loops *)

Lemma for_each_app {A S : Type} (l1 l2 : list A) (body : S -> A -> result S)
    (s : S) :
  for_each (l1 ++ l2) body s = s' ← for_each l1 body s; for_each l2 body s'.
Proof.
  revert s. induction l1 as [ | x l1 IH]; intros s; simpl; [done | ].
  destruct (body s x); simpl; [apply IH | done].
Qed.

(** A loop nested in a loop is one loop over the concatenated items. *)
Lemma for_each_bind {A B S : Type} (xs : list A) (inner : A -> list B)
    (body : S -> B -> result S) (s : S) :
  for_each (xs ≫= inner) body s =
  for_each xs (fun s x => for_each (inner x) body s) s.
Proof.
  revert s. induction xs as [ | x xs IH]; intros s; [done | ].
  rewrite bind_cons, for_each_app. simpl.
  destruct (for_each (inner x) body s); simpl; [apply IH | done].
Qed.

Lemma bind_Ok {A : Type} (r : result A) : (x ← r; Ok x) = r.
Proof. by destruct r. Qed.

Lemma for_each_ext {A S : Type} (l : list A) (f g : S -> A -> result S) (s : S) :
  (forall s x, x ∈ l -> f s x = g s x) -> for_each l f s = for_each l g s.
Proof.
  revert s. induction l as [ | x l IH]; intros s Hfg; simpl; [done | ].
  rewrite (Hfg s x) by apply list_elem_of_here.
  destruct (g s x); simpl; [ | done ].
  apply IH. intros s' y Hy. apply Hfg. by apply list_elem_of_further.
Qed.

Lemma elem_of_enumerate {A : Type} (start m : Z) (x : A) (l : list A) :
  (m, x) ∈ enumerate start l <->
  start <= m /\ l !! Z.to_nat (m - start) = Some x.
Proof.
  revert start. induction l as [ | y l IH]; intros start; simpl.
  - rewrite elem_of_nil. split; [done | ]. by intros [_ ?].
  - rewrite elem_of_cons, IH. split.
    + intros [[= -> ->] | [Hle Hl]].
      * split; [lia | ]. by rewrite Z.sub_diag.
      * split; [lia | ].
        replace (Z.to_nat (m - start)) with (S (Z.to_nat (m - (start + 1)))) by lia.
        done.
    + intros [Hle Hl]. destruct (decide (m = start)) as [-> | Hne].
      * left. rewrite Z.sub_diag in Hl. simpl in Hl. congruence.
      * right. split; [lia | ].
        replace (Z.to_nat (m - start)) with (S (Z.to_nat (m - (start + 1)))) in Hl by lia.
        done.
Qed.

(** ** C6, C10: the non-working calendar *)

Lemma build_non_working_dates_entries
    (months_by_year : gmap Z (list (gmap Z str))) :
  build_non_working_dates months_by_year =
  for_each (entries months_by_year) add_entry ∅.
Proof.
  unfold build_non_working_dates, entries.
  rewrite for_each_bind. apply for_each_ext. intros nw [y months] _.
  rewrite for_each_bind. apply for_each_ext. intros nw' [m days_map] _.
  rewrite for_each_bind. apply for_each_ext. intros nw'' [d kind] _.
  simpl. case_bool_decide; simpl; [ | done ].
  by destruct (Date.new y m d).
Qed.

Lemma elem_of_entries (months_by_year : gmap Z (list (gmap Z str)))
    (y m d : Z) (kind : str) :
  (y, m, d, kind) ∈ entries months_by_year <->
  recorded months_by_year y m d kind.
Proof.
  unfold entries, recorded. rewrite list_elem_of_bind. split.
  - intros ([y' months] & H & Hy). apply elem_of_map_to_list in Hy.
    apply list_elem_of_bind in H as ([m' days_map] & H & Hm).
    apply elem_of_enumerate in Hm as [Hle Hm].
    apply list_elem_of_bind in H as ([d' kind'] & H & Hd).
    apply elem_of_map_to_list in Hd. apply list_elem_of_singleton in H.
    simpl in *. simplify_eq. by exists months, days_map.
  - intros (months & days_map & Hy & Hle & Hm & Hd).
    exists (y, months). split; [ | by apply elem_of_map_to_list ].
    apply list_elem_of_bind. exists (m, days_map). split.
    + apply list_elem_of_bind. exists (d, kind). split.
      * by apply list_elem_of_singleton.
      * by apply elem_of_map_to_list.
    + by apply elem_of_enumerate.
Qed.

Lemma new_Ok (y m d : Z) (dt : date) :
  Date.new y m d = Ok dt <-> Date.fields dt = (y, m, d).
Proof.
  unfold Date.new. split.
  - destruct (decide (fits_int y /\ _)); [ | done ].
    destruct (decide _); [ | done ]. by intros [= <-].
  - intros E. destruct dt as [y' m' d' H]. unfold Date.fields in E.
    simpl in E. simplify_eq.
    rewrite decide_True by (by apply Date.check_date_args_fits).
    destruct (decide _); [ | done ].
    f_equal. by apply Date.date_ext.
Qed.

(** What the constructor raises: OverflowError for an argument that is not
    a C int, ValueError for C ints that are not a date. *)
Lemma new_Raise (y m d : Z) (e : exn) :
  Date.new y m d = Raise e ->
  (e = ValueError DateOutOfRange /\ fits_int y /\ fits_int m /\ fits_int d) \/
  (e = OverflowError /\ ¬ (fits_int y /\ fits_int m /\ fits_int d)).
Proof.
  unfold Date.new. destruct (decide (fits_int y /\ _)) as [Hfit | Hfit].
  - destruct (decide _); [done | ]. intros [= <-]. by left.
  - intros [= <-]. by right.
Qed.

Lemma new_Raise_fits (y m d : Z) (e : exn) :
  fits_int y -> fits_int m -> fits_int d ->
  Date.new y m d = Raise e -> e = ValueError DateOutOfRange.
Proof.
  intros Hy Hm Hd [[-> _] | [_ Hfit]]%new_Raise; [done | ].
  by destruct Hfit.
Qed.

Lemma non_working_kind (kind : str) :
  kind ∈ [holiday; dayoff] <-> kind = holiday \/ kind = dayoff.
Proof. by rewrite elem_of_cons, list_elem_of_singleton. Qed.

(** The set a finished loop returns. *)
Lemma for_each_add_entry_Ok (es : list (Z * Z * Z * str)) (S0 S1 : gset date) :
  for_each es add_entry S0 = Ok S1 ->
  forall dt : date,
    dt ∈ S1 <->
    dt ∈ S0 \/
    exists kind, (Date.fields dt, kind) ∈ es /\ (kind = holiday \/ kind = dayoff).
Proof.
  revert S0. induction es as [ | [[[y m] d] kind] es IH]; intros S0; simpl.
  - intros [= <-] dt. split; [by left | ]. intros [? | (k & H & _)]; [done | ].
    by apply elem_of_nil in H.
  - case_bool_decide as Hk; simpl.
    + destruct (Date.new y m d) as [dt0 | e] eqn:Hnew; simpl; [ | done ].
      intros H dt. rewrite (IH _ H dt), elem_of_union, elem_of_singleton.
      apply new_Ok in Hnew.
      assert (kind = holiday \/ kind = dayoff) by (by apply non_working_kind).
      split.
      * intros [[? | ->] | (k & Hin & Hk')].
        -- by left.
        -- right. exists kind. rewrite Hnew. split; [apply list_elem_of_here | done].
        -- right. exists k. split; [by apply list_elem_of_further | done].
      * intros [? | (k & Hin & Hk')]; [by left; left | ].
        apply elem_of_cons in Hin as [[Hf ->]%pair_equal_spec | Hin].
        -- left. right. apply Date.date_ext. congruence.
        -- right. by exists k.
    + intros H dt. rewrite (IH _ H dt). split.
      * intros [? | (k & Hin & Hk')]; [by left | ].
        right. exists k. split; [by apply list_elem_of_further | done].
      * intros [? | (k & Hin & Hk')]; [by left | ].
        apply elem_of_cons in Hin as [[Hf ->]%pair_equal_spec | Hin].
        -- exfalso. by apply Hk, non_working_kind.
        -- right. by exists k.
Qed.

(** The loop finishes when every non-working entry is a date. *)
Lemma for_each_add_entry_total (es : list (Z * Z * Z * str)) (S0 : gset date) :
  (forall y m d kind, (y, m, d, kind) ∈ es -> kind = holiday \/ kind = dayoff ->
     exists dt, Date.new y m d = Ok dt) ->
  exists S1, for_each es add_entry S0 = Ok S1.
Proof.
  revert S0. induction es as [ | [[[y m] d] kind] es IH]; intros S0 Hes; simpl.
  - by exists S0.
  - assert (forall y m d kind, (y, m, d, kind) ∈ es ->
              kind = holiday \/ kind = dayoff -> exists dt, Date.new y m d = Ok dt)
      as Hes' by (intros; eapply Hes; [by apply list_elem_of_further | done]).
    case_bool_decide as Hk; simpl; [ | by apply IH ].
    destruct (Hes y m d kind) as [dt ->];
      [apply list_elem_of_here | by apply non_working_kind | ].
    simpl. by apply IH.
Qed.

Lemma is_date_new (y m d : Z) : is_date y m d <-> exists dt, Date.new y m d = Ok dt.
Proof.
  unfold is_date, Date.new. split.
  - intros H. rewrite decide_True by (by apply Date.check_date_args_fits).
    destruct (decide (Is_true _)); [by eexists | done].
  - intros [dt H]. destruct (decide (fits_int y /\ _)); [ | done ].
    by destruct (decide (Is_true _)).
Qed.

Lemma build_non_working_dates_Ok
    (months_by_year : gmap Z (list (gmap Z str))) (S : gset date) :
  build_non_working_dates months_by_year = Ok S ->
  forall dt : date,
    dt ∈ S <->
    exists kind,
      recorded months_by_year (Date.year dt) (Date.month dt) (Date.day dt) kind /\
      (kind = holiday \/ kind = dayoff).
Proof.
  rewrite build_non_working_dates_entries. intros H dt.
  rewrite (for_each_add_entry_Ok _ _ _ H dt). split.
  - intros [? | (kind & Hin & Hk)]; [set_solver | ].
    exists kind. split; [ | done ]. by apply elem_of_entries.
  - intros (kind & Hrec & Hk). right. exists kind. split; [ | done ].
    by apply elem_of_entries.
Qed.

Lemma build_non_working_dates_returns
    (months_by_year : gmap Z (list (gmap Z str))) :
  (forall y m d kind,
     recorded months_by_year y m d kind -> kind = holiday \/ kind = dayoff ->
     is_date y m d) ->
  exists S, build_non_working_dates months_by_year = Ok S.
Proof.
  intros Hvalid. rewrite build_non_working_dates_entries.
  apply for_each_add_entry_total. intros y m d kind Hin Hk.
  apply is_date_new, (Hvalid y m d kind); [ | done ].
  by apply elem_of_entries.
Qed.

Lemma recorded_functional (months_by_year : gmap Z (list (gmap Z str)))
    (y m d : Z) (k1 k2 : str) :
  recorded months_by_year y m d k1 -> recorded months_by_year y m d k2 ->
  k1 = k2.
Proof.
  intros (ms1 & dm1 & Hy1 & _ & Hm1 & Hd1) (ms2 & dm2 & Hy2 & _ & Hm2 & Hd2).
  congruence.
Qed.

(** C6. The set [build_non_working_dates] returns holds exactly the dates
    recorded as holiday or dayoff: a date is in it if and only if the
    calendars record it with one of these two kinds, and a date recorded
    as shortened is not in it. It returns a set whenever the entries of
    these two kinds are dates of the calendar. *)
Theorem build_non_working_dates_exact
    (months_by_year : gmap Z (list (gmap Z str))) :
  ((forall y m d kind,
      recorded months_by_year y m d kind -> kind = holiday \/ kind = dayoff ->
      is_date y m d) ->
   exists S, build_non_working_dates months_by_year = Ok S) /\
  (forall S : gset date,
     build_non_working_dates months_by_year = Ok S ->
     (forall dt : date,
        dt ∈ S <->
        exists kind,
          recorded months_by_year (Date.year dt) (Date.month dt) (Date.day dt) kind /\
          (kind = holiday \/ kind = dayoff)) /\
     (forall dt : date,
        recorded months_by_year (Date.year dt) (Date.month dt) (Date.day dt) shortened ->
        dt ∉ S)).
Proof.
  split; [apply build_non_working_dates_returns | ].
  intros S HS. split; [by apply build_non_working_dates_Ok | ].
  intros dt Hshort Hin.
  apply (build_non_working_dates_Ok _ _ HS) in Hin as (kind & Hrec & Hk).
  pose proof (recorded_functional _ _ _ _ _ _ Hshort Hrec) as <-.
  by destruct Hk.
Qed.

Lemma recorded_january_2024 (y m d : Z) (kind : str) :
  recorded january_2024 y m d kind ->
  y = 2024 /\ m = 1 /\ (d = 1 /\ kind = holiday \/ d = 9 /\ kind = shortened).
Proof.
  intros (months & days_map & Hy & Hle & Hm & Hd). unfold january_2024 in Hy.
  apply lookup_singleton_Some in Hy as [<- <-].
  destruct (Z.to_nat (m - 1)) as [ | n] eqn:E; simpl in Hm; [ | done ].
  injection Hm as <-.
  apply lookup_insert_Some in Hd as [[<- <-] | [_ Hd]].
  - split; [done | ]. split; [lia | by left].
  - apply lookup_singleton_Some in Hd as [<- <-].
    split; [done | ]. split; [lia | by right].
Qed.

Lemma recorded_january_2024_holiday : recorded january_2024 2024 1 1 holiday.
Proof.
  exists [ {[ 1 := holiday; 9 := shortened ]} ], {[ 1 := holiday; 9 := shortened ]}.
  split; [apply lookup_singleton_eq | ]. split; [done | ]. split; [done | ].
  apply lookup_insert_eq.
Qed.

Lemma recorded_january_2024_shortened : recorded january_2024 2024 1 9 shortened.
Proof.
  exists [ {[ 1 := holiday; 9 := shortened ]} ], {[ 1 := holiday; 9 := shortened ]}.
  split; [apply lookup_singleton_eq | ]. split; [done | ]. split; [done | ].
  rewrite lookup_insert_ne by done. apply lookup_singleton_eq.
Qed.

Lemma build_non_working_dates_exact_witness :
  exists S : gset date,
    build_non_working_dates january_2024 = Ok S /\
    monday_1_jan_2024 ∈ S /\ tuesday_9_jan_2024 ∉ S.
Proof.
  destruct (build_non_working_dates_exact january_2024) as [Hreturns Hexact].
  destruct Hreturns as [S HS].
  { intros y m d kind Hrec Hk.
    apply recorded_january_2024 in Hrec as (-> & -> & [[-> ->] | [-> ->]]).
    - exact I.
    - by destruct Hk. }
  exists S. split; [done | ]. destruct (Hexact S HS) as [Hin Hshort]. split.
  - apply Hin. exists holiday. split; [ | by left ].
    apply recorded_january_2024_holiday.
  - apply Hshort. apply recorded_january_2024_shortened.
Defined.

(** C10. When every recorded entry is a date of the calendar,
    [build_non_working_dates] returns a set and raises nothing. The
    function checks nothing itself: an entry that is not a date (30
    February as a holiday, among twelve month maps) makes it raise. *)
Theorem build_non_working_dates_total :
  (forall months_by_year : gmap Z (list (gmap Z str)),
     (forall y m d kind, recorded months_by_year y m d kind -> is_date y m d) ->
     exists S, build_non_working_dates months_by_year = Ok S) /\
  build_non_working_dates february_30 = Raise (ValueError DateOutOfRange).
Proof.
  split.
  - intros months_by_year Hvalid. apply build_non_working_dates_returns.
    intros y m d kind Hrec _. by apply (Hvalid y m d kind).
  - rewrite build_non_working_dates_entries.
    replace (entries february_30) with [(2024, 2, 30, holiday)]
      by (vm_compute; reflexivity).
    reflexivity.
Qed.

Lemma build_non_working_dates_total_witness :
  exists S, build_non_working_dates january_2024 = Ok S.
Proof.
  apply (proj1 build_non_working_dates_total january_2024).
  intros y m d kind Hrec.
  by apply recorded_january_2024 in Hrec as (-> & -> & [[-> ->] | [-> ->]]).
Defined.

(** ** Event generation *)

Lemma for_each_fmap {A B S : Type} (f : A -> B) (l : list A)
    (body : S -> B -> result S) (s : S) :
  for_each (f <$> l) body s = for_each l (fun s x => body s (f x)) s.
Proof.
  revert s. induction l as [ | x l IH]; intros s; simpl; [done | ].
  destruct (body s (f x)); simpl; [apply IH | done].
Qed.

Lemma generate_salary_events_combos (clock : nat -> timestamp) (tick : nat)
    (year : Z) (N : gset date) (C : gset Z) (rules : list (Z * str)) :
  generate_salary_events clock tick year N C rules =
  for_each (combos rules) (generate_step clock tick year N C) [].
Proof.
  unfold generate_salary_events, combos.
  rewrite for_each_bind. apply for_each_ext. intros events month _.
  rewrite for_each_fmap. apply for_each_ext. by intros events' [day label] _.
Qed.

(** Adding a day fails at 9999-12-31 and nowhere else. *)
Lemma add_one_day_total (d : date) :
  Date.fields d ≠ (9999, 12, 31) -> exists d', Date.add_one_day d = Ok d'.
Proof.
  pose proof (Date.bounds d) as Hd.
  pose proof (Date.days_in_month_range (Date.year d) (Date.month d + 1)).
  unfold Date.fields, Date.add_one_day, Date.normalize_plus_one.
  intros Hne.
  repeat case_match; simplify_eq; try by eexists.
  all: exfalso;
    match goal with H : ¬ Is_true _, H' : decide _ = _ |- _ =>
      clear H'; apply H; apply Date.check_date_args_spec end;
    unfold Date.MINYEAR, Date.MAXYEAR; try lia.
  - change (Date.days_in_month (Date.year d + 1) 1) with 31.
    destruct (decide (Date.year d = 9999)) as [Hy | ?]; [ | lia ].
    exfalso. apply Hne.
    assert (Date.month d = 12) as Hm by lia. rewrite Hm in *. 
    rewrite Date.days_in_month_december in *.
    repeat f_equal; lia.
Qed.

Lemma add_one_day_raise (d : date) (e : exn) :
  Date.add_one_day d = Raise e -> e = OverflowError.
Proof.
  unfold Date.add_one_day. repeat case_match; intros; by simplify_eq.
Qed.

Lemma make_salary_event_Ok (now : timestamp) (y m d : Z) (actual : date)
    (label : str) (e : Event) :
  make_salary_event now y m d actual label = Ok e ->
  uid e = make_uid y m d label /\ dtstart e = actual /\ summary e = label /\
  dtstamp e = now /\ Date.add_one_day actual = Ok (dtend e) /\
  exists base, Date.new y m d = Ok base /\
    (description e = None <-> actual = base).
Proof.
  unfold make_salary_event.
  destruct (Date.add_one_day actual) as [end_day | ?]; simpl; [ | done ].
  destruct (Date.new y m d) as [base | ?]; simpl; [ | done ].
  intros [= <-]; simpl. repeat split; try done.
  exists base. split; [done | ].
  destruct (decide (actual ≠ base)) as [Hne | Heq]; [done | ].
  split; [ | done ]. intros _. by destruct (decide (actual = base)).
Qed.

Lemma make_salary_event_total (now : timestamp) (y m d : Z)
    (actual end_day base : date) (label : str) :
  Date.add_one_day actual = Ok end_day -> Date.new y m d = Ok base ->
  exists e, make_salary_event now y m d actual label = Ok e.
Proof.
  intros H1 H2. unfold make_salary_event. rewrite H1, H2. simpl. by eexists.
Qed.

Lemma generate_step_Ok (clock : nat -> timestamp) (tick : nat) (y : Z)
    (N : gset date) (C : gset Z) (events es : list Event) (c : Z * (Z * str)) :
  generate_step clock tick y N C events c = Ok es ->
  if decide (is_date y c.1 c.2.1) then
    exists e, es = events ++ [e] /\ event_for y N C c e
  else es = events.
Proof.
  unfold generate_step.
  destruct (Date.new y c.1 c.2.1) as [base | e] eqn:Hnew.
  - rewrite decide_True by (apply is_date_new; by eexists).
    destruct (shift_to_previous_working_day base N C) as [actual | ?] eqn:Hs;
      simpl; [ | done ].
    destruct (make_salary_event _ y c.1 c.2.1 actual c.2.2) as [e | ?] eqn:He;
      simpl; [ | done ].
    intros [= <-]. exists e. split; [done | ].
    apply make_salary_event_Ok in He as (Hu & Hst & Hsum & _ & Hend & _).
    exists base. rewrite Hst. by repeat split.
  - rewrite decide_False by (intros [dt Hdt]%is_date_new; congruence).
    apply new_Raise in Hnew as [[-> _] | [-> _]]; [by intros [= <-] | done].
Qed.

Lemma for_each_generate_step_Ok (clock : nat -> timestamp) (tick : nat) (y : Z)
    (N : gset date) (C : gset Z) (cs : list (Z * (Z * str)))
    (events es : list Event) :
  for_each cs (generate_step clock tick y N C) events = Ok es ->
  exists new,
    es = events ++ new /\
    Forall2 (event_for y N C) (filter (fun c => is_date y c.1 c.2.1) cs) new.
Proof.
  revert events. induction cs as [ | c cs IH]; intros events; simpl.
  - intros [= <-]. exists []. by rewrite app_nil_r.
  - destruct (generate_step clock tick y N C events c) as [es1 | ?] eqn:Hstep;
      simpl; [ | done ].
    intros (new & -> & Hnew)%IH. apply generate_step_Ok in Hstep.
    rewrite filter_cons. destruct (decide (is_date y c.1 c.2.1)).
    + destruct Hstep as (e & -> & He). exists (e :: new).
      split; [by rewrite <- app_assoc | by constructor].
    + subst es1. by exists new.
Qed.

Lemma for_each_generate_step_total (clock : nat -> timestamp) (tick : nat)
    (y : Z) (N : gset date) (C : gset Z) (cs : list (Z * (Z * str)))
    (events : list Event) :
  (forall c, c ∈ cs -> fits_int y /\ fits_int c.1 /\ fits_int c.2.1) ->
  (forall c base, c ∈ cs -> Date.new y c.1 c.2.1 = Ok base ->
     exists actual, shift_to_previous_working_day base N C = Ok actual /\
                    Date.fields actual ≠ (9999, 12, 31)) ->
  exists es, for_each cs (generate_step clock tick y N C) events = Ok es.
Proof.
  revert events. induction cs as [ | c cs IH]; intros events Hfit Hcs; simpl.
  - by eexists.
  - assert (exists es1, generate_step clock tick y N C events c = Ok es1)
      as [es1 ->].
    { unfold generate_step.
      destruct (Date.new y c.1 c.2.1) as [base | e] eqn:Hnew.
      - destruct (Hcs c base) as (actual & -> & Hmax);
          [apply list_elem_of_here | done | ]. simpl.
        destruct (add_one_day_total actual Hmax) as [end_day Hend].
        destruct (make_salary_event_total (clock (tick + length events)%nat)
                    y c.1 c.2.1 actual end_day base c.2.2 Hend Hnew) as [e ->].
        simpl. by eexists.
      - destruct (Hfit c) as (Hy & Hm & Hd); [apply list_elem_of_here | ].
        apply (new_Raise_fits _ _ _ _ Hy Hm Hd) in Hnew as ->. by eexists. }
    simpl. apply IH.
    + intros c' Hin. apply Hfit. by apply list_elem_of_further.
    + intros c' base Hin. apply Hcs. by apply list_elem_of_further.
Qed.

Lemma make_salary_event_raise (now : timestamp) (y m d : Z) (actual base : date)
    (label : str) (e : exn) :
  Date.new y m d = Ok base ->
  make_salary_event now y m d actual label = Raise e -> e = OverflowError.
Proof.
  intros Hnew. unfold make_salary_event. rewrite Hnew.
  destruct (Date.add_one_day actual) eqn:Hadd; simpl; [done | ].
  intros [= <-]. by apply add_one_day_raise in Hadd.
Qed.

Lemma for_each_generate_step_raise (clock : nat -> timestamp) (tick : nat)
    (y : Z) (N : gset date) (C : gset Z) (cs : list (Z * (Z * str)))
    (events : list Event) (e : exn) :
  for_each cs (generate_step clock tick y N C) events = Raise e ->
  e = OverflowError.
Proof.
  revert events. induction cs as [ | c cs IH]; intros events; simpl; [done | ].
  destruct (generate_step clock tick y N C events c) as [es1 | e1] eqn:Hstep;
    simpl; [apply IH | ].
  intros [= <-]. unfold generate_step in Hstep.
  destruct (Date.new y c.1 c.2.1) as [base | e0] eqn:Hnew.
  - destruct (shift_to_previous_working_day base N C) as [actual | ?] eqn:Hs;
      simpl in Hstep.
    + destruct (make_salary_event _ y c.1 c.2.1 actual c.2.2) eqn:He;
        simpl in Hstep; [done | ].
      injection Hstep as <-. by apply (make_salary_event_raise _ _ _ _ _ _ _ _ Hnew He).
    + injection Hstep as <-. by apply shift_raises in Hs as [-> _].
  - apply new_Raise in Hnew as [[-> _] | [-> _]]; [done | by injection Hstep].
Qed.

Lemma event_for_uids (y : Z) (N : gset date) (C : gset Z)
    (cs : list (Z * (Z * str))) (es : list Event) :
  Forall2 (event_for y N C) cs es ->
  uid <$> es = (fun c => make_uid y c.1 c.2.1 c.2.2) <$> cs.
Proof.
  induction 1 as [ | c e cs es (base & _ & _ & _ & _ & Hu) _ IH]; [done | ].
  by rewrite !fmap_cons, Hu, IH.
Qed.

(** ** C3: the identifier does not depend on the shift *)

(** C3. The identifier is a function of the intended year, month, day and
    label alone: two events made for the same intended date and label
    have the same identifier whatever their actual (shifted) dates and
    clock readings, and two generations for the same year and rules give
    the same identifiers, in the same order, whatever the non-working
    sets and coverage sets. *)
Theorem uid_independent_of_shift :
  (forall (now1 now2 : timestamp) (y m d : Z) (actual1 actual2 : date)
          (label : str) (e1 e2 : Event),
     make_salary_event now1 y m d actual1 label = Ok e1 ->
     make_salary_event now2 y m d actual2 label = Ok e2 ->
     uid e1 = uid e2) /\
  (forall (clock1 clock2 : nat -> timestamp) (tick1 tick2 : nat) (y : Z)
          (N1 N2 : gset date) (C1 C2 : gset Z) (rules : list (Z * str))
          (es1 es2 : list Event),
     generate_salary_events clock1 tick1 y N1 C1 rules = Ok es1 ->
     generate_salary_events clock2 tick2 y N2 C2 rules = Ok es2 ->
     uid <$> es1 = uid <$> es2).
Proof.
  split.
  - intros now1 now2 y m d a1 a2 label e1 e2 H1 H2.
    apply make_salary_event_Ok in H1 as (-> & _).
    by apply make_salary_event_Ok in H2 as (-> & _).
  - intros clock1 clock2 tick1 tick2 y N1 N2 C1 C2 rules es1 es2.
    rewrite !generate_salary_events_combos.
    intros (new1 & -> & H1)%for_each_generate_step_Ok.
    intros (new2 & -> & H2)%for_each_generate_step_Ok.
    simpl. by rewrite (event_for_uids _ _ _ _ _ H1), (event_for_uids _ _ _ _ _ H2).
Qed.

Lemma uid_independent_of_shift_witness :
  exists es1 es2 : list Event,
    generate_salary_events zero_clock 0 2024 no_dates no_years day_7_salary
    = Ok es1 /\
    generate_salary_events counting_clock 0 2024 no_dates {[ 2024 ]} day_7_salary
    = Ok es2 /\
    dtstart <$> es1 ≠ dtstart <$> es2 /\
    uid <$> es1 = uid <$> es2.
Proof.
  eexists. eexists.
  split; [vm_compute; reflexivity | ].
  split; [vm_compute; reflexivity | ].
  split; [vm_compute; discriminate | ].
  eapply (proj2 uid_independent_of_shift zero_clock counting_clock 0%nat 0%nat
            2024 no_dates no_dates no_years {[ 2024 ]} day_7_salary);
    vm_compute; reflexivity.
Defined.

(** ** C8: one event for every date that exists *)

Lemma elem_of_combos (rules : list (Z * str)) (c : Z * (Z * str)) :
  c ∈ combos rules <-> c.1 ∈ range 1 13 /\ c.2 ∈ rules.
Proof.
  unfold combos. rewrite list_elem_of_bind. split.
  - intros (month & Hc & Hm). apply list_elem_of_fmap in Hc as (r & -> & Hr).
    done.
  - intros [Hm Hr]. exists c.1. split; [ | done ].
    apply list_elem_of_fmap. exists c.2. split; [by destruct c | done].
Qed.

(** A year that is not a C int stops the first date construction. *)
Lemma generate_salary_events_year_overflow (clock : nat -> timestamp)
    (tick : nat) (year : Z) (N : gset date) (C : gset Z)
    (rules : list (Z * str)) :
  ¬ fits_int year -> rules ≠ [] ->
  generate_salary_events clock tick year N C rules = Raise OverflowError.
Proof.
  intros Hyear Hrules. rewrite generate_salary_events_combos.
  destruct rules as [ | r rules]; [done | ].
  unfold combos. change (range 1 13) with (1 :: range 2 13).
  rewrite bind_cons, fmap_cons. cbn [app for_each].
  unfold generate_step at 2, Date.new.
  rewrite decide_False by (by intros [? _]). done.
Qed.

(** C8, as the code has it. The date constructor takes C ints, and date
    arithmetic is bounded by 0001-01-01 and 9999-12-31. For a year and
    rule days that are C ints: when every intended date that exists has a
    working day at or before it, and 9999-12-31 is not an intended date
    that is a working day, [generate_salary_events] returns without error,
    and a day that does not exist in a month raises nothing. Whenever it
    returns, its events are, in the order of the loops, exactly one for
    every (month, rule) combination whose date exists and none for the
    others. The only exception it lets out is OverflowError, of that
    arithmetic or of the constructor: it does let it out for every year
    that is not a C int, whatever the (non-empty) rules are. *)
Theorem generate_salary_events_one_per_date
    (clock : nat -> timestamp) (tick : nat) (year : Z)
    (N : gset date) (C : gset Z) (rules : list (Z * str)) :
  (fits_int year -> Forall (fun r => fits_int r.1) rules ->
   (forall month day label base,
      month ∈ range 1 13 -> (day, label) ∈ rules ->
      Date.new year month day = Ok base ->
      (exists w, Date.le w base /\ is_working_day w N C = true) /\
      (Date.fields base = (9999, 12, 31) -> is_working_day base N C = false)) ->
   exists events, generate_salary_events clock tick year N C rules = Ok events) /\
  (forall events,
     generate_salary_events clock tick year N C rules = Ok events ->
     Forall2 (event_for year N C)
       (filter (fun c => is_date year c.1 c.2.1) (combos rules)) events) /\
  (forall e,
     generate_salary_events clock tick year N C rules = Raise e ->
     e = OverflowError) /\
  (¬ fits_int year -> rules ≠ [] ->
   generate_salary_events clock tick year N C rules = Raise OverflowError).
Proof.
  split; [ | split; [ | split ] ].
  - rewrite generate_salary_events_combos.
    intros Hyear Hdays H. apply for_each_generate_step_total.
    + intros [month [day label]] [Hm Hr]%elem_of_combos. simpl in *.
      rewrite Forall_forall in Hdays. specialize (Hdays _ Hr).
      unfold range in Hm. apply elem_of_seqZ in Hm.
      split; [done | ]. split; [unfold fits_int; lia | done].
    + intros [month [day label]] base [Hm Hr]%elem_of_combos Hnew. simpl in *.
      destruct (H month day label base Hm Hr Hnew) as [(w & Hle & Hw) Hmax].
      destruct (shift_reaches base w N C Hle Hw) as (n & r & _ & Hr').
      exists r. split; [done | ]. intros Hfr.
      apply shift_returns in Hr' as (Hrb & Hwr & _).
      assert (r = base) as ->.
      { apply key_inj. apply le_key in Hrb. pose proof (Date.bounds base).
        unfold key, Date.fields in *. simplify_eq. lia. }
      rewrite (Hmax Hfr) in Hwr. done.
  - rewrite generate_salary_events_combos.
    by intros events (new & -> & Hnew)%for_each_generate_step_Ok.
  - rewrite generate_salary_events_combos. apply for_each_generate_step_raise.
  - apply generate_salary_events_year_overflow.
Qed.

Lemma generate_salary_events_one_per_date_witness :
  exists events,
    generate_salary_events zero_clock 0 2024 no_dates no_years day_31_salary
    = Ok events.
Proof.
  apply (proj1 (generate_salary_events_one_per_date
                  zero_clock 0 2024 no_dates no_years day_31_salary)).
  - unfold fits_int. lia.
  - unfold day_31_salary, fits_int. repeat constructor; simpl; lia.
  - intros month day label base Hm Hr Hnew.
    apply new_Ok in Hnew. unfold Date.fields in Hnew. split.
    + exists monday_1_jan_2024. split; [ | vm_compute; reflexivity ].
      apply le_key. unfold key, monday_1_jan_2024. simpl.
      pose proof (Date.bounds base).
      unfold range in Hm. apply elem_of_seqZ in Hm. simplify_eq. lia.
    + intros Hmax. unfold Date.fields in Hmax. rewrite Hnew in Hmax.
      by injection Hmax.
Defined.

(** The rule "31:Salary" in year 9999, no calendar: 31 December 9999 is a
    date, a Friday, and the event's end day does not exist. *)
Lemma generate_salary_events_raises_at_date_max :
  parse_rules (Text.lit "31:Salary") = Ok day_31_salary /\
  is_date 9999 12 31 /\
  generate_salary_events zero_clock 0 9999 no_dates no_years day_31_salary
  = Raise OverflowError.
Proof. vm_compute. repeat split. Qed.

(** The year 2^31 is not a C int: the first date construction raises
    OverflowError, which the loop does not catch. *)
Lemma generate_salary_events_raises_beyond_int :
  ¬ fits_int (2 ^ 31) /\
  generate_salary_events zero_clock 0 (2 ^ 31) no_dates no_years day_31_salary
  = Raise OverflowError.
Proof. split; [unfold fits_int; lia | vm_compute; reflexivity]. Qed.

(** ** C4: when identifiers are distinct *)

Lemma uint_chars_digits (u : Decimal.uint) :
  forallb is_decimal_digit (Text.uint_chars u) = true.
Proof. induction u; simpl; done. Qed.

Lemma uint_chars_inj (u v : Decimal.uint) :
  Text.uint_chars u = Text.uint_chars v -> u = v.
Proof.
  revert v. induction u; intros v; destruct v; simpl; intros [=]; f_equal; auto.
Qed.

Lemma of_int_nonneg (n : Z) :
  0 <= n -> exists u, Z.to_int n = Decimal.Pos u /\ Text.of_int n = Text.uint_chars u.
Proof.
  intros Hn. unfold Text.of_int. destruct n as [ | p | p]; simpl; [ | | lia ];
    by eexists.
Qed.

Lemma of_int_digits (n : Z) :
  0 <= n -> forallb is_decimal_digit (Text.of_int n) = true.
Proof.
  intros (u & _ & ->)%of_int_nonneg. apply uint_chars_digits.
Qed.

Lemma of_int_inj (a b : Z) :
  0 <= a -> 0 <= b -> Text.of_int a = Text.of_int b -> a = b.
Proof.
  intros (u & Hu & ->)%of_int_nonneg (v & Hv & ->)%of_int_nonneg E.
  apply uint_chars_inj in E as ->.
  rewrite <- (DecimalZ.of_to a), <- (DecimalZ.of_to b). congruence.
Qed.

Lemma of_int_padded_2 (n : Z) :
  0 <= n <= 31 ->
  length (Text.of_int_padded 2 n) = 2%nat /\
  forallb is_decimal_digit (Text.of_int_padded 2 n) = true /\
  of_two_digits (Text.of_int_padded 2 n) = n.
Proof.
  intros Hn. replace n with (Z.of_nat (Z.to_nat n)) by lia.
  assert (Z.to_nat n < 32)%nat as Hk by lia.
  generalize dependent (Z.to_nat n). intros k Hk.
  do 32 (destruct k as [ | k]; [by vm_compute | ]). lia.
Qed.

Lemma digits_no_hyphen (s : str) :
  forallb is_decimal_digit s = true -> Text.hyphen ∉ s.
Proof.
  induction s as [ | c s IH]; simpl.
  - intros _. apply not_elem_of_nil.
  - rewrite andb_true_iff. intros [Hc Hs]. apply not_elem_of_cons.
    split; [ | by apply IH ]. intros <-. done.
Qed.

(** Two texts cut at their first occurrence of a character. *)
Lemma first_occurrence_inj (c : N) (a1 a2 r1 r2 : str) :
  c ∉ a1 -> c ∉ a2 -> a1 ++ c :: r1 = a2 ++ c :: r2 -> a1 = a2 /\ r1 = r2.
Proof.
  revert a2. induction a1 as [ | x a1 IH]; intros [ | y a2] H1 H2; simpl.
  - by intros [= ->].
  - intros [= -> _]. exfalso. apply H2. apply list_elem_of_here.
  - intros [= -> _]. exfalso. apply H1. apply list_elem_of_here.
  - intros [= -> E]. apply not_elem_of_cons in H1 as [_ H1].
    apply not_elem_of_cons in H2 as [_ H2].
    destruct (IH a2 H1 H2 E) as [-> ->]. done.
Qed.

Lemma make_uid_inj (y1 m1 d1 y2 m2 d2 : Z) (l1 l2 : str) :
  is_date y1 m1 d1 -> is_date y2 m2 d2 ->
  make_uid y1 m1 d1 l1 = make_uid y2 m2 d2 l2 ->
  y1 = y2 /\ m1 = m2 /\ d1 = d2 /\ safe_of l1 = safe_of l2.
Proof.
  intros H1 H2. apply Date.check_date_args_spec in H1, H2.
  unfold Date.MINYEAR, Date.MAXYEAR in *.
  pose proof (Date.days_in_month_range y1 m1).
  pose proof (Date.days_in_month_range y2 m2).
  destruct (of_int_padded_2 m1) as (Lm1 & Dm1 & Rm1); [lia | ].
  destruct (of_int_padded_2 m2) as (Lm2 & Dm2 & Rm2); [lia | ].
  destruct (of_int_padded_2 d1) as (Ld1 & Dd1 & Rd1); [lia | ].
  destruct (of_int_padded_2 d2) as (Ld2 & Dd2 & Rd2); [lia | ].
  pose proof (of_int_digits y1) as Dy1. pose proof (of_int_digits y2) as Dy2.
  unfold make_uid. intros E. apply app_inv_head in E.
  change (Text.lit "-") with [Text.hyphen] in E.
  rewrite !(app_assoc _ _ ([Text.hyphen] ++ _)) in E.
  apply first_occurrence_inj in E as [Edigits Erest].
  - apply app_inv_tail in Erest.
    rewrite <- ?app_assoc in Edigits.
    apply app_inj_2 in Edigits as [Ey Emd];
      [ | by rewrite !length_app, Lm1, Lm2, Ld1, Ld2 ].
    apply app_inj_1 in Emd as [Em Ed]; [ | by rewrite Lm1, Lm2 ].
    apply of_int_inj in Ey; [ | lia | lia ].
    rewrite <- Rm1, <- Rm2, <- Rd1, <- Rd2, Em, Ed. done.
  - apply digits_no_hyphen. rewrite !forallb_app, Dy1, Dm1, Dd1 by lia. done.
  - apply digits_no_hyphen. rewrite !forallb_app, Dy2, Dm2, Dd2 by lia. done.
Qed.

Lemma NoDup_fmap_eq {A B : Type} (f : A -> B) (l : list A) (x y : A) :
  NoDup (f <$> l) -> x ∈ l -> y ∈ l -> f x = f y -> x = y.
Proof.
  induction l as [ | a l IH]; simpl; [by intros _ ?%elem_of_nil | ].
  intros [Ha Hl]%NoDup_cons [-> | Hx]%elem_of_cons [-> | Hy]%elem_of_cons E.
  - done.
  - exfalso. apply Ha. rewrite E. apply list_elem_of_fmap. by exists y.
  - exfalso. apply Ha. rewrite <- E. apply list_elem_of_fmap. by exists x.
  - by apply IH.
Qed.

Lemma covered_prefix_sublist (years : list Z) (C : gset Z) :
  covered_prefix years C `sublist_of` years.
Proof.
  induction years as [ | y years IH]; simpl; [done | ].
  case_decide; [apply sublist_nil_l | by apply sublist_skip].
Qed.

Lemma elem_of_run_combos (years : list Z) (C : gset Z) (rules : list (Z * str))
    (x : Z * (Z * (Z * str))) :
  x ∈ run_combos years C rules <->
  x.1 ∈ covered_prefix years C /\ is_date x.1 x.2.1 x.2.2.1 /\
  x.2 ∈ combos rules.
Proof.
  unfold run_combos. rewrite list_elem_of_bind. split.
  - intros (y & Hx & Hy). apply list_elem_of_fmap in Hx as (c & -> & Hc).
    apply list_elem_of_filter in Hc as [Hd Hc]. done.
  - intros (Hy & Hd & Hc). exists x.1. split; [ | done ].
    apply list_elem_of_fmap. exists x.2. split; [by destruct x | ].
    by apply list_elem_of_filter.
Qed.

Lemma NoDup_combos (rules : list (Z * str)) : NoDup rules -> NoDup (combos rules).
Proof.
  intros Hr. unfold combos. apply NoDup_bind.
  - intros m1 m2 c _ _ (r1 & -> & _)%list_elem_of_fmap (r2 & E & _)%list_elem_of_fmap.
    by injection E.
  - intros m _. apply NoDup_fmap_2; [ | done ]. by intros a b [=].
  - apply NoDup_seqZ.
Qed.

Lemma NoDup_run_combos (years : list Z) (C : gset Z) (rules : list (Z * str)) :
  NoDup years -> NoDup rules -> NoDup (run_combos years C rules).
Proof.
  intros Hy Hr. unfold run_combos. apply NoDup_bind.
  - intros y1 y2 x _ _ (c1 & -> & _)%list_elem_of_fmap (c2 & E & _)%list_elem_of_fmap.
    by injection E.
  - intros y _. apply NoDup_fmap_2; [by intros a b [=] | ].
    eapply sublist_NoDup; [by apply NoDup_combos | apply sublist_filter].
  - eapply sublist_NoDup; [done | apply covered_prefix_sublist].
Qed.

Lemma run_combos_cons (y : Z) (years : list Z) (C : gset Z)
    (rules : list (Z * str)) :
  run_combos (y :: years) C rules =
  if decide (y ∉ C) then []
  else (pair y <$> filter (fun c => is_date y c.1 c.2.1) (combos rules)) ++
       run_combos years C rules.
Proof.
  unfold run_combos. cbn [covered_prefix]. case_decide; [done | ].
  by rewrite bind_cons.
Qed.

(** The identifiers of a run, read off its combinations. *)
Lemma collect_events_uids (clock : nat -> timestamp) (years : list Z)
    (N : gset date) (C : gset Z) (rules : list (Z * str))
    (events es : list Event) :
  collect_events clock years N C rules events = Ok es ->
  exists new,
    es = events ++ new /\
    uid <$> new =
      (fun x => make_uid x.1 x.2.1 x.2.2.1 x.2.2.2) <$> run_combos years C rules.
Proof.
  revert events es. induction years as [ | y years IH]; intros events es.
  - intros [= <-]. exists []. by rewrite app_nil_r.
  - rewrite run_combos_cons. cbn [collect_events]. case_decide as Hcov.
    + intros [= <-]. exists []. by rewrite app_nil_r.
    + rewrite generate_salary_events_combos.
      destruct (for_each _ _ _) as [es1 | ?] eqn:Hgen; [ | done ].
      apply for_each_generate_step_Ok in Hgen as (new1 & -> & Hnew1).
      rewrite app_nil_l. intros (new & -> & Hnew)%IH. exists (new1 ++ new).
      split; [by rewrite <- app_assoc | ].
      rewrite !fmap_app, Hnew, <- list_fmap_compose.
      f_equal. by rewrite (event_for_uids _ _ _ _ _ Hnew1).
Qed.

(** C4, as the code has it. The label enters the identifier through
    [safe_of], which keeps lower-cased runs of ASCII letters and digits
    only. When no two rules agree on the day and on what [safe_of] leaves
    of their labels, the events of a run over the years [start_year] to
    [end_year] have pairwise distinct identifiers. *)
Theorem collect_events_uids_distinct (clock : nat -> timestamp)
    (start_year end_year : Z) (N : gset date) (C : gset Z)
    (rules : list (Z * str)) (events : list Event) :
  NoDup (rule_key <$> rules) ->
  collect_events clock (range start_year (end_year + 1)) N C rules [] = Ok events ->
  NoDup (uid <$> events).
Proof.
  intros Hkeys (new & -> & Hnew)%collect_events_uids. simpl. rewrite Hnew.
  apply NoDup_fmap_2_strong.
  - intros [y1 [m1 [d1 l1]]] [y2 [m2 [d2 l2]]].
    intros (_ & Hd1 & Hc1)%elem_of_run_combos (_ & Hd2 & Hc2)%elem_of_run_combos E.
    simpl in *.
    apply make_uid_inj in E as (-> & -> & -> & Hsafe); [ | done | done ].
    apply elem_of_combos in Hc1 as [_ Hr1]. apply elem_of_combos in Hc2 as [_ Hr2].
    simpl in *.
    assert ((d2, l1) = (d2, l2)) as [= ->]; [ | done ].
    apply (NoDup_fmap_eq rule_key rules); try done.
    unfold rule_key. simpl. by rewrite Hsafe.
  - apply NoDup_run_combos; [apply NoDup_seqZ | by apply NoDup_fmap_1 in Hkeys].
Qed.

Lemma collect_events_uids_distinct_witness :
  exists events,
    collect_events counting_clock (range 2024 (2025 + 1)) no_dates
      {[ 2024; 2025 ]} default_rules []
    = Ok events /\
    NoDup (uid <$> events).
Proof.
  eexists. split; [vm_compute; reflexivity | ].
  eapply (collect_events_uids_distinct counting_clock 2024 2025 no_dates
            {[ 2024; 2025 ]} default_rules).
  - decide_by_computation.
  - vm_compute. reflexivity.
Defined.

(** The rules "5:Salary;5:salary" have distinct labels, and their events
    share their identifiers month by month. *)
Lemma generate_salary_events_uids_clash :
  parse_rules (Text.lit "5:Salary;5:salary") = Ok salary_twice /\
  NoDup salary_twice.*2 /\
  exists events,
    generate_salary_events counting_clock 0 2024 no_dates no_years salary_twice
    = Ok events /\
    ¬ NoDup (uid <$> events).
Proof.
  split; [vm_compute; reflexivity | ].
  split; [decide_by_computation | ].
  eexists. split; [vm_compute; reflexivity | ].
  decide_by_computation.
Qed.

(** ** C5: the errors of the rule parser *)

Lemma is_empty_nil (s : str) : is_empty s = true <-> s = [].
Proof. by destruct s. Qed.

Lemma split_first_cut (c : N) (s : str) :
  c ∈ s ->
  s = (Text.split_first c s).1 ++ c :: (Text.split_first c s).2 /\
  c ∉ (Text.split_first c s).1.
Proof.
  induction s as [ | x s IH]; simpl; [by intros ?%elem_of_nil | ].
  destruct (N.eqb_spec x c) as [-> | Hne]; simpl.
  - intros _. split; [done | apply not_elem_of_nil].
  - intros [-> | Hin]%elem_of_cons; [done | ].
    destruct (IH Hin) as [E Hnot].
    destruct (Text.split_first c s) as [a b]; simpl in *.
    split; [by rewrite <- E | ]. apply not_elem_of_cons. by split.
Qed.

Lemma split_first_unique (c : N) (a b : str) :
  c ∉ a -> Text.split_first c (a ++ c :: b) = (a, b).
Proof.
  induction a as [ | x a IH]; simpl.
  - intros _. by rewrite N.eqb_refl.
  - intros [Hne Ha]%not_elem_of_cons.
    destruct (N.eqb_spec x c) as [-> | _]; [done | ]. by rewrite (IH Ha).
Qed.

(** [int] converts the integer literals within its digit limit. *)
Lemma int_literal (s : str) (n : Z) :
  Text.int s = Ok n <-> integer_literal s n /\ ¬ over_digit_limit s.
Proof.
  unfold Text.int, integer_literal, over_digit_limit.
  destruct (Nat.ltb_spec Text.int_max_str_digits (length s)).
  - split; [done | ]. by intros [_ ?].
  - destruct s as [ | c s]; [by split; [ | intros [[[] _] _]] | ].
    destruct (Text.decimal_value 0 (c :: s)) as [v | ].
    + split; [intros [= ->]; split; [done | lia] | by intros [[_ [= ->]] _]].
    + split; [done | by intros [[_ ?] _]].
Qed.

Lemma decimal_value_isdigit (acc : Z) (s : str) (n : Z) :
  Text.decimal_value acc s = Some n -> forallb Text.isdigit_char s = true.
Proof.
  revert acc. induction s as [ | c s IH]; intros acc; simpl; [done | ].
  unfold Text.isdigit_char.
  destruct (Text.todecimal c); [ | done ]. intros H. simpl. by apply IH in H.
Qed.

Lemma integer_literal_isdigit (s : str) (n : Z) :
  integer_literal s n -> Text.isdigit s = true.
Proof.
  intros (Hne & Hv). unfold Text.isdigit. destruct s; [done | ].
  by apply decimal_value_isdigit in Hv.
Qed.

Lemma int_raise (s : str) (e : exn) :
  Text.int s = Raise e -> e = ValueError (InvalidLiteral s).
Proof.
  unfold Text.int. repeat case_match; intros; by simplify_eq.
Qed.

(** One part: it is appended when it has no defect and raises a
    malformed-rule error when it has one. *)
Lemma parse_part_Ok (rules rules' : list (Z * str)) (part : str) :
  parse_part rules part = Ok rules' ->
  ¬ defective part /\ exists r, rules' = rules ++ [r].
Proof.
  unfold parse_part. case_bool_decide as Hcolon; simpl; [ | done ].
  destruct (split_first_cut colon part Hcolon) as [Hcut Hnot].
  destruct (Text.split_first colon part) as [day_s label]; simpl in *.
  destruct (Text.isdigit (Text.strip day_s)); simpl; [ | done ].
  destruct (Text.int (Text.strip day_s)) as [day | ] eqn:Hint; simpl; [ | done ].
  destruct (Z.ltb_spec day 1); simpl; [done | ].
  destruct (Z.ltb_spec 31 day); simpl; [done | ].
  destruct (is_empty (Text.strip label)) eqn:Hlabel; [done | ].
  intros [= <-]. split; [ | by eexists ].
  apply int_literal in Hint as [Hlit Hcap].
  intros [? | (a & b & E & Ha & Hdefect)]; [done | ].
  assert ((a, b) = (day_s, label)) as [= -> ->].
  { pose proof (split_first_unique colon a b Ha) as Uab.
    pose proof (split_first_unique colon day_s label Hnot) as Udl.
    rewrite <- E in Uab. rewrite <- Hcut in Udl. congruence. }
  destruct Hdefect as [Hno | [Hlong | [(n & Hn & Hrange) | Hl]]].
  - by apply (Hno day).
  - done.
  - destruct Hn as (_ & Hn), Hlit as (_ & Hd). simplify_eq. lia.
  - rewrite Hl in Hlabel. done.
Qed.

Lemma parse_part_Raise (rules : list (Z * str)) (part : str) (e : exn) :
  parse_part rules part = Raise e -> MalformedRule e /\ defective part.
Proof.
  unfold parse_part. case_bool_decide as Hcolon; simpl;
    [ | intros [= <-]; split; [done | by left] ].
  destruct (split_first_cut colon part Hcolon) as [Hcut Hnot].
  destruct (Text.split_first colon part) as [day_s label]; simpl in *.
  assert ((forall n, ¬ integer_literal (Text.strip day_s) n) \/
          over_digit_limit (Text.strip day_s) \/
          (exists n, integer_literal (Text.strip day_s) n /\ ¬ (1 <= n <= 31)) \/
          Text.strip label = [] -> defective part) as Hdef.
  { intros HP. right. by exists day_s, label. }
  destruct (Text.isdigit (Text.strip day_s)) eqn:Hdig; simpl.
  - destruct (Text.int (Text.strip day_s)) as [day | e'] eqn:Hint; simpl.
    + apply int_literal in Hint as [Hlit Hcap].
      destruct (Z.ltb_spec day 1); simpl.
      { intros [= <-]. split; [done | ]. apply Hdef. right. right. left.
        exists day. split; [done | lia]. }
      destruct (Z.ltb_spec 31 day); simpl.
      { intros [= <-]. split; [done | ]. apply Hdef. right. right. left.
        exists day. split; [done | lia]. }
      destruct (is_empty (Text.strip label)) eqn:Hlabel; [ | done ].
      intros [= <-]. split; [done | ]. apply Hdef. right. right. right.
      by apply is_empty_nil.
    + intros [= <-]. pose proof (int_raise _ _ Hint) as ->. split; [done | ].
      apply Hdef.
      destruct (decide (Text.int_max_str_digits < length (Text.strip day_s))%nat)
        as [Hlong | Hshort]; [by right; left | ].
      left. intros n Hn.
      assert (Text.int (Text.strip day_s) = Ok n) by (by apply int_literal).
      congruence.
  - intros [= <-]. split; [done | ]. apply Hdef. left. intros n Hn.
    apply integer_literal_isdigit in Hn. congruence.
Qed.

Lemma for_each_parse_part_Ok (parts : list str) (rules rules' : list (Z * str)) :
  for_each parts parse_part rules = Ok rules' -> Forall (fun p => ¬ defective p) parts.
Proof.
  revert rules. induction parts as [ | part parts IH]; intros rules; simpl;
    [by constructor | ].
  destruct (parse_part rules part) as [rules1 | ] eqn:Hp; simpl; [ | done ].
  intros H. apply parse_part_Ok in Hp as [Hp _]. constructor; [done | ].
  by apply IH in H.
Qed.

Lemma for_each_parse_part_Raise (parts : list str) (rules : list (Z * str))
    (e : exn) :
  for_each parts parse_part rules = Raise e ->
  MalformedRule e /\ Exists defective parts.
Proof.
  revert rules. induction parts as [ | part parts IH]; intros rules; simpl;
    [done | ].
  destruct (parse_part rules part) as [rules1 | e1] eqn:Hp; simpl.
  - intros [He Hex]%IH. split; [done | by apply Exists_cons_tl].
  - intros [= <-]. apply parse_part_Raise in Hp as [He Hd].
    split; [done | by apply Exists_cons_hd].
Qed.

Lemma forallb_lstrip_by (p : N -> bool) (s : str) :
  forallb p (Text.lstrip_by p s) = forallb p s.
Proof.
  induction s as [ | c s IH]; simpl; [done | ].
  destruct (p c) eqn:Hc; simpl; [done | by rewrite Hc].
Qed.

(** Trimming leaves nothing exactly of the texts made of whitespace. *)
Lemma strip_nil (s : str) : Text.strip s = [] <-> forallb Text.isspace s = true.
Proof.
  unfold Text.strip, Text.strip_by.
  by rewrite rstrip_by_nil, forallb_lstrip_by.
Qed.

Lemma parse_rules_Ok (rules_str : str) (rules : list (Z * str)) :
  parse_rules rules_str = Ok rules ->
  Text.strip rules_str ≠ [] /\ Forall (fun p => ¬ defective p) (parts_of rules_str).
Proof.
  unfold parse_rules. fold (parts_of rules_str).
  destruct (is_empty (Text.strip rules_str)) eqn:He; [done | ].
  destruct (for_each (parts_of rules_str) parse_part []) eqn:Hloop; simpl; [ | done ].
  intros _. split.
  - intros Hnil. apply is_empty_nil in Hnil. congruence.
  - by apply for_each_parse_part_Ok in Hloop.
Qed.

Lemma parse_rules_Raise (rules_str : str) (e : exn) :
  parse_rules rules_str = Raise e ->
  (EmptyRuleSet e /\ Text.strip rules_str = []) \/
  (MalformedRule e /\ Text.strip rules_str ≠ [] /\
   Exists defective (parts_of rules_str)).
Proof.
  unfold parse_rules. fold (parts_of rules_str).
  destruct (is_empty (Text.strip rules_str)) eqn:He.
  - intros [= <-]. left. split; [done | by apply is_empty_nil].
  - destruct (for_each (parts_of rules_str) parse_part []) eqn:Hloop; simpl; [done | ].
    intros [= <-]. right. apply for_each_parse_part_Raise in Hloop as [Hm Hex].
    split; [done | ]. split; [ | done ].
    intros Hnil. apply is_empty_nil in Hnil. congruence.
Qed.

Lemma Forall_Exists_absurd {A : Type} (P : A -> Prop) (l : list A) :
  Forall (fun x => ¬ P x) l -> Exists P l -> False.
Proof. induction 1; inversion 1; auto. Qed.

(** C5, as the code has it. [parse_rules] fails with the empty-rule-set
    error exactly on the empty and the whitespace-only inputs. On the
    other inputs it fails with a malformed-rule error exactly when one of
    the trimmed, non-empty segments between semicolons has a defect: no
    colon, a day portion that is not a non-negative integer literal or is
    one of more than 4300 digits (the limit of [int], leading zeros
    counted), a day outside 1..31, or a label that is empty once trimmed.
    It returns normally exactly on the inputs that are not whitespace only
    and have no such segment, those without any non-empty segment
    included. *)
Theorem parse_rules_errors (rules_str : str) :
  ((exists e, parse_rules rules_str = Raise e /\ EmptyRuleSet e) <->
   forallb Text.isspace rules_str = true) /\
  ((exists e, parse_rules rules_str = Raise e /\ MalformedRule e) <->
   forallb Text.isspace rules_str = false /\
   Exists defective (parts_of rules_str)) /\
  ((exists rules, parse_rules rules_str = Ok rules) <->
   forallb Text.isspace rules_str = false /\
   Forall (fun p => ¬ defective p) (parts_of rules_str)).
Proof.
  rewrite <- not_true_iff_false, <- strip_nil.
  split; [ | split ]; split.
  - intros (e & Hp & He).
    apply parse_rules_Raise in Hp as [[_ ?] | (Hm & _)]; [done | ].
    by rewrite He in Hm.
  - intros Hnil. exists (ValueError RulesStringEmpty). split; [ | done ].
    unfold parse_rules. by rewrite Hnil.
  - intros (e & Hp & He).
    apply parse_rules_Raise in Hp as [[He' _] | (_ & ? & ?)]; [ | done ].
    by rewrite He' in He.
  - intros [Hne Hex]. destruct (parse_rules rules_str) as [rules | e] eqn:Hp.
    + apply parse_rules_Ok in Hp as [_ Hall].
      destruct (Forall_Exists_absurd _ _ Hall Hex).
    + exists e. split; [done | ].
      by apply parse_rules_Raise in Hp as [[_ ?] | (? & _)].
  - intros (rules & Hp). by apply parse_rules_Ok in Hp.
  - intros [Hne Hall]. destruct (parse_rules rules_str) as [rules | e] eqn:Hp.
    + by eexists.
    + apply parse_rules_Raise in Hp as [[_ ?] | (_ & _ & Hex)]; [done | ].
      destruct (Forall_Exists_absurd _ _ Hall Hex).
Qed.

Lemma parse_rules_errors_witness :
  forallb Text.isspace default_rules_text = false /\
  Forall (fun p => ¬ defective p) (parts_of default_rules_text).
Proof.
  apply (proj1 (proj2 (proj2 (parse_rules_errors default_rules_text)))).
  eexists. vm_compute. reflexivity.
Defined.

(** The input ";;" has no non-empty segment, and [parse_rules] returns
    the empty list of rules for it. *)
Lemma parse_rules_only_separators :
  Forall (fun p => p = []) (Text.split semicolon only_separators) /\
  parts_of only_separators = [] /\
  parse_rules only_separators = Ok [].
Proof.
  split; [ | split ]; [ | vm_compute; reflexivity.. ].
  vm_compute. repeat constructor.
Qed.

(** A day written with 4301 digits is an integer literal, of value 5, and
    for a rule with that day [parse_rules] raises the ValueError of
    [int]. *)
Lemma parse_rules_over_digit_limit :
  integer_literal day_of_4301_digits 5 /\
  over_digit_limit day_of_4301_digits /\
  parse_rules rule_of_4301_digits
  = Raise (ValueError (InvalidLiteral day_of_4301_digits)).
Proof.
  split; [ | split ].
  - split; [done | vm_compute; reflexivity].
  - apply Nat.ltb_lt. vm_compute. reflexivity.
  - vm_compute. reflexivity.
Qed.

Example parse_rules_default : parse_rules default_rules_text = Ok default_rules.
Proof. vm_compute. reflexivity. Qed.

Example parse_rules_empty :
  parse_rules (Text.lit "") = Raise (ValueError RulesStringEmpty).
Proof. vm_compute. reflexivity. Qed.

Example parse_rules_no_colon :
  parse_rules (Text.lit "5") = Raise (ValueError (InvalidRule (Text.lit "5"))).
Proof. vm_compute. reflexivity. Qed.

Example parse_rules_out_of_range :
  parse_rules (Text.lit "32:Salary")
  = Raise (ValueError (DayOutOfRange (Text.lit "32:Salary"))).
Proof. vm_compute. reflexivity. Qed.

(** ** The order of the parsed rules *)

Lemma insert_by_day_Permutation (r : Z * str) (l : list (Z * str)) :
  insert_by_day r l ≡ₚ r :: l.
Proof.
  induction l as [ | r' l IH]; simpl; [done | ].
  destruct (r.1 <=? r'.1); [done | ]. by rewrite IH, Permutation_swap.
Qed.

Lemma sort_by_day_Permutation (l : list (Z * str)) : sort_by_day l ≡ₚ l.
Proof.
  induction l as [ | r l IH]; simpl; [done | ].
  by rewrite insert_by_day_Permutation, IH.
Qed.

Lemma insert_by_day_sorted (r : Z * str) (l : list (Z * str)) :
  StronglySorted (fun a b => a.1 <= b.1) l ->
  StronglySorted (fun a b => a.1 <= b.1) (insert_by_day r l).
Proof.
  induction 1 as [ | r' l Hl IH Hr']; simpl; [by repeat constructor | ].
  destruct (Z.leb_spec r.1 r'.1).
  - constructor; [by constructor | ]. constructor; [done | ].
    eapply Forall_impl; [exact Hr' | ]. intros x Hx. simpl in Hx. lia.
  - constructor; [done | ].
    rewrite insert_by_day_Permutation. constructor; [lia | done].
Qed.

Lemma sort_by_day_sorted (l : list (Z * str)) :
  StronglySorted (fun a b => a.1 <= b.1) (sort_by_day l).
Proof.
  induction l as [ | r l IH]; simpl; [constructor | ].
  by apply insert_by_day_sorted.
Qed.

(** The sort is stable: the rules of any one day keep their order. These
    three properties determine the result of the sort. *)
Lemma insert_by_day_stable (k : Z) (r : Z * str) (l : list (Z * str)) :
  filter (fun x => x.1 = k) (insert_by_day r l) =
  filter (fun x => x.1 = k) (r :: l).
Proof.
  induction l as [ | r' l IH]; simpl; [done | ].
  destruct (Z.leb_spec r.1 r'.1); [done | ].
  rewrite (filter_cons _ r'), IH, !(filter_cons _ r), !(filter_cons _ r').
  repeat case_decide; try done. lia.
Qed.

Lemma sort_by_day_stable (k : Z) (l : list (Z * str)) :
  filter (fun x => x.1 = k) (sort_by_day l) = filter (fun x => x.1 = k) l.
Proof.
  induction l as [ | r l IH]; simpl; [done | ].
  by rewrite insert_by_day_stable, !filter_cons, IH.
Qed.

(** ** The alphabet of identifiers *)

Lemma Forall_lstrip_by (P : N -> Prop) (p : N -> bool) (s : str) :
  Forall P s -> Forall P (Text.lstrip_by p s).
Proof.
  induction 1 as [ | c s Hc Hs IH]; simpl; [constructor | ].
  destruct (p c); [done | by constructor].
Qed.

Lemma Forall_rstrip_by (P : N -> Prop) (p : N -> bool) (s : str) :
  Forall P s -> Forall P (Text.rstrip_by p s).
Proof.
  induction 1 as [ | c s Hc Hs IH]; simpl; [constructor | ].
  destruct (Text.rstrip_by p s); [ | by constructor ].
  destruct (p c); by repeat constructor.
Qed.

Lemma Forall_sub_runs_go (P : N -> Prop) (p : N -> bool) (repl : str)
    (b : bool) (s : str) :
  Forall P repl -> (forall c, p c = false -> P c) ->
  Forall P (Text.sub_runs_go p repl b s).
Proof.
  intros Hrepl Hp. revert b. induction s as [ | c s IH]; intros b; simpl;
    [constructor | ].
  destruct (p c) eqn:Hc.
  - destruct b; [done | ]. apply Forall_app. by split.
  - constructor; [by apply Hp | done].
Qed.

(** [lower] is applied to ASCII letters, digits and hyphens only, and the
    part of the identifier that comes from the label is made of lower-case
    ASCII letters, digits and hyphens. *)
Lemma safe_of_alphabet (label : str) :
  Forall (fun c => is_alnum c = true \/ c = Text.hyphen)
    (Text.strip_chars (Text.lit "-")
       (Text.sub_runs (fun c => negb (is_alnum c)) (Text.lit "-") label)) /\
  Forall (fun c => is_slug_char c = true) (safe_of label).
Proof.
  assert (Forall (fun c => is_alnum c = true \/ c = Text.hyphen)
            (Text.strip_chars (Text.lit "-")
               (Text.sub_runs (fun c => negb (is_alnum c)) (Text.lit "-") label)))
    as Hin.
  { apply Forall_rstrip_by, Forall_lstrip_by, Forall_sub_runs_go.
    - change (Text.lit "-") with [Text.hyphen]. constructor; [by right | constructor].
    - intros c Hc. left. by apply negb_false_iff. }
  split; [done | ]. unfold safe_of.
  destruct (is_empty _); [by repeat constructor | ].
  unfold Text.lower. apply Forall_fmap. eapply Forall_impl; [exact Hin | ].
  intros c [Hc | ->]; [ | done ]. simpl.
  unfold is_alnum, is_slug_char, Text.lower_char in *.
  destruct (N.leb_spec 65 c), (N.leb_spec c 90); simpl;
    repeat match goal with
    | |- context [(?a <=? ?b)%N] => destruct (N.leb_spec a b); simpl
    | H : context [(?a <=? ?b)%N] |- _ => destruct (N.leb_spec a b); simpl in H
    | |- context [(?a =? ?b)%N] => destruct (N.eqb_spec a b); simpl
    end; try done; lia.
Qed.

(** * Further properties of the code *)

(** ** normalize_text *)

Section Strip.
Variable p : N -> bool.

Lemma rstrip_by_idemp (s : str) :
  Text.rstrip_by p (Text.rstrip_by p s) = Text.rstrip_by p s.
Proof.
  induction s as [ | c s IH]; [done | ].
  rewrite (rstrip_by_cons p c s).
  destruct (forallb p (c :: s)) eqn:Hall; [done | ].
  rewrite rstrip_by_cons, IH. simpl in *.
  destruct (p c); simpl in *; [ | done ].
  destruct (forallb p (Text.rstrip_by p s)) eqn:Hr; [ | done ].
  apply rstrip_by_nil in Hr. rewrite IH in Hr. apply rstrip_by_nil in Hr.
  congruence.
Qed.

Lemma rstrip_by_tail (c : N) (s : str) :
  Text.rstrip_by p (c :: s) = c :: s -> Text.rstrip_by p s = s.
Proof.
  rewrite rstrip_by_cons. destruct (forallb p (c :: s)); [done | ].
  by intros [= ->].
Qed.

Lemma lstrip_by_head (s : str) :
  match Text.lstrip_by p s with
  | [] => True
  | c :: _ => p c = false
  end.
Proof.
  induction s as [ | c s IH]; simpl; [done | ].
  by destruct (p c) eqn:Hc.
Qed.

Lemma rstrip_by_head (c : N) (s : str) :
  Text.rstrip_by p (c :: s) = [] \/
  exists r, Text.rstrip_by p (c :: s) = c :: r.
Proof.
  rewrite rstrip_by_cons. destruct (forallb p (c :: s)); [by left | right].
  by eexists.
Qed.

Lemma sub_runs_go_head (repl : str) (s : str) :
  forallb p s = false ->
  exists c r, Text.sub_runs_go p repl true s = c :: r /\ p c = false.
Proof.
  induction s as [ | c s IH]; simpl; [done | ].
  destruct (p c) eqn:Hc; simpl; [done | ]. intros _. by eexists _, _.
Qed.

Lemma sub_runs_go_nil (repl : str) (b : bool) (s : str) :
  Text.sub_runs_go p repl b s = [] -> forallb p s = true.
Proof.
  revert b. induction s as [ | c s IH]; intros b; simpl; [done | ].
  destruct (p c); simpl; [ | done ].
  destruct b; [apply IH | ]. intros [_ H]%app_eq_nil. by apply IH in H.
Qed.

End Strip.

Lemma strip_idemp (s : str) : Text.strip (Text.strip s) = Text.strip s.
Proof.
  unfold Text.strip, Text.strip_by.
  set (t := Text.lstrip_by Text.isspace s).
  pose proof (lstrip_by_head Text.isspace s) as Hhead. fold t in Hhead.
  destruct t as [ | c t]; [done | ].
  destruct (rstrip_by_head Text.isspace c t) as [-> | [r Hr]]; [done | ].
  rewrite Hr. simpl Text.lstrip_by. rewrite Hhead, <- Hr.
  apply rstrip_by_idemp.
Qed.

Lemma single_spaced_cons (c : N) (s : str) :
  single_spaced (c :: s) =
  (if Text.isspace c then
     (c =? 32)%N &&
     match s with
     | c' :: _ => negb (Text.isspace c')
     | [] => false
     end
   else true) && single_spaced s.
Proof. reflexivity. Qed.

Lemma single_spaced_tail (c : N) (s : str) :
  single_spaced (c :: s) = true -> single_spaced s = true.
Proof. simpl. by intros [_ ?]%andb_true_iff. Qed.

Lemma single_spaced_sub_runs_go (b : bool) (s : str) :
  Text.rstrip_by Text.isspace s = s ->
  single_spaced (Text.sub_runs_go Text.isspace [32%N] b s) = true.
Proof.
  revert b. induction s as [ | c s IH]; intros b Hend; [done | ].
  pose proof (rstrip_by_tail _ _ _ Hend) as Hend'.
  cbn [Text.sub_runs_go]. destruct (Text.isspace c) eqn:Hc.
  - assert (forallb Text.isspace s = false) as Hs.
    { rewrite rstrip_by_cons in Hend. simpl in Hend. rewrite Hc in Hend.
      simpl in Hend. by destruct (forallb Text.isspace s). }
    destruct b; [by apply IH | ].
    destruct (sub_runs_go_head Text.isspace [32%N] s Hs) as (c' & r & Hr & Hc').
    pose proof (IH true Hend') as Hss. rewrite Hr in *.
    change ([32%N] ++ c' :: r) with (32%N :: c' :: r).
    rewrite single_spaced_cons, Hss, Hc'. done.
  - rewrite single_spaced_cons, Hc. simpl. by apply IH.
Qed.

Lemma normalize_text_normalized (s : str) :
  normalized (normalize_text s) = true.
Proof.
  unfold normalize_text, Text.sub_runs. change (Text.lit " ") with [32%N].
  pose proof (strip_idemp s) as Hidem.
  assert (Text.rstrip_by Text.isspace (Text.strip s) = Text.strip s) as Hend.
  { unfold Text.strip, Text.strip_by. apply rstrip_by_idemp. }
  pose proof (single_spaced_sub_runs_go false _ Hend) as Hss.
  assert (match Text.strip s with [] => True | c :: _ => Text.isspace c = false end)
    as Hhead.
  { unfold Text.strip, Text.strip_by.
    pose proof (lstrip_by_head Text.isspace s) as H.
    destruct (Text.lstrip_by Text.isspace s) as [ | c t]; [done | ].
    by destruct (rstrip_by_head Text.isspace c t) as [-> | [r ->]]. }
  destruct (Text.strip s) as [ | c t]; [done | ].
  cbn [Text.sub_runs_go] in *. rewrite Hhead in *.
  unfold normalized. by rewrite Hhead, Hss.
Qed.

Lemma single_spaced_not_all (c : N) (s : str) :
  single_spaced (c :: s) = true -> forallb Text.isspace (c :: s) = false.
Proof.
  simpl. destruct (Text.isspace c) eqn:Hc; [ | done ].
  destruct s as [ | c' s]; [by rewrite andb_false_r | ].
  intros [[_ Hc']%andb_true_iff _]%andb_true_iff. simpl.
  apply negb_true_iff in Hc'. by rewrite Hc'.
Qed.

Lemma single_spaced_rstrip (s : str) :
  single_spaced s = true -> Text.rstrip_by Text.isspace s = s.
Proof.
  induction s as [ | c s IH]; [done | ]. intros Hss.
  rewrite rstrip_by_cons, (single_spaced_not_all c s Hss).
  by rewrite (IH (single_spaced_tail c s Hss)).
Qed.

Lemma single_spaced_sub_runs_go_id (s : str) :
  single_spaced s = true ->
  Text.sub_runs_go Text.isspace [32%N] false s = s /\
  (match s with
   | [] => True
   | c :: _ => Text.isspace c = false
   end -> Text.sub_runs_go Text.isspace [32%N] true s = s).
Proof.
  induction s as [ | c s IH]; [done | ]. intros Hss.
  destruct (IH (single_spaced_tail c s Hss)) as [IHf IHt].
  simpl in Hss. cbn [Text.sub_runs_go].
  destruct (Text.isspace c) eqn:Hc.
  - split; [ | done ].
    apply andb_true_iff in Hss as [[Hsp Hnext]%andb_true_iff _].
    apply N.eqb_eq in Hsp as ->.
    destruct s as [ | c' s]; [done | ]. apply negb_true_iff in Hnext.
    simpl. f_equal. by apply IHt.
  - split; [ | intros _ ]; by rewrite IHf.
Qed.

Lemma normalized_fixed (s : str) :
  normalized s = true -> normalize_text s = s.
Proof.
  unfold normalized, normalize_text, Text.sub_runs, Text.strip, Text.strip_by.
  change (Text.lit " ") with [32%N].
  destruct s as [ | c s]; [done | ].
  intros [Hc Hss]%andb_true_iff. apply negb_true_iff in Hc.
  cbn [Text.lstrip_by]. rewrite Hc, (single_spaced_rstrip _ Hss).
  by apply single_spaced_sub_runs_go_id.
Qed.

(** X1. The result of [normalize_text] has no whitespace at either end and
    nothing but single spaces (U+0020) as whitespace inside; the texts of
    that form are exactly the ones the function leaves unchanged, so that
    normalizing twice is normalizing once. *)
Theorem normalize_text_normal_form (s : str) :
  normalized (normalize_text s) = true /\
  (normalize_text s = s <-> normalized s = true) /\
  normalize_text (normalize_text s) = normalize_text s.
Proof.
  split; [apply normalize_text_normalized | ]. split.
  - split; [ | apply normalized_fixed ].
    intros <-. apply normalize_text_normalized.
  - apply normalized_fixed, normalize_text_normalized.
Qed.

Lemma normalize_text_blank (s : str) :
  forallb Text.isspace s = true -> normalize_text s = [].
Proof. rewrite <- strip_nil. unfold normalize_text. by intros ->. Qed.

(** X2. [normalize_text] returns the empty text exactly for the inputs
    made of whitespace only (the empty input among them). *)
Theorem normalize_text_empty (s : str) :
  normalize_text s = [] <-> forallb Text.isspace s = true.
Proof.
  split; [ | apply normalize_text_blank ].
  rewrite <- strip_nil. unfold normalize_text, Text.sub_runs.
  intros H%sub_runs_go_nil.
  apply (rstrip_by_nil Text.isspace) in H.
  unfold Text.strip, Text.strip_by in *. by rewrite rstrip_by_idemp in H.
Qed.

(** ** classify_day *)

Lemma lstrip_by_app_all (p : N -> bool) (ws s : str) :
  forallb p ws = true -> Text.lstrip_by p (ws ++ s) = Text.lstrip_by p s.
Proof.
  induction ws as [ | c ws IH]; simpl; [done | ].
  intros [Hc Hws]%andb_true_iff. rewrite Hc. by apply IH.
Qed.

Lemma rstrip_by_app_fixed (p : N -> bool) (m t : str) :
  m ≠ [] -> Text.rstrip_by p m = m ->
  Text.rstrip_by p (m ++ t) = m ++ Text.rstrip_by p t.
Proof.
  induction m as [ | c m IH]; [done | ]. intros _ Hm.
  assert (forallb p (c :: m) = false) as Hall.
  { destruct (forallb p (c :: m)) eqn:H; [ | done ].
    apply rstrip_by_nil in H. congruence. }
  rewrite <- app_comm_cons, rstrip_by_cons.
  assert (forallb p (c :: m ++ t) = false) as ->.
  { change (c :: m ++ t) with ((c :: m) ++ t). by rewrite forallb_app, Hall. }
  rewrite <- app_comm_cons. f_equal. destruct m as [ | c' m]; [done | ].
  apply IH; [done | ]. by apply rstrip_by_tail in Hm.
Qed.

Lemma sub_runs_go_app (p : N -> bool) (repl : str) (b : bool) (s u : str) :
  Text.sub_runs_go p repl b (s ++ u) =
  Text.sub_runs_go p repl b s ++ Text.sub_runs_go p repl (in_run_after p b s) u.
Proof.
  revert b. induction s as [ | c s IH]; intros b; [done | ].
  assert (in_run_after p b (c :: s) = in_run_after p (p c) s) as Hlast.
  { unfold in_run_after. rewrite last_cons. by destruct (last s). }
  rewrite <- app_comm_cons. cbn [Text.sub_runs_go]. rewrite Hlast.
  destruct (p c) eqn:Hc.
  - destruct b; rewrite IH; [done | by rewrite app_assoc].
  - by rewrite IH.
Qed.

Lemma normalized_last (m : str) :
  normalized m = true -> in_run_after Text.isspace false m = false.
Proof.
  unfold normalized, in_run_after. destruct m as [ | c m]; [done | ].
  intros [_ Hss]%andb_true_iff. revert c Hss.
  induction m as [ | c' m IH]; intros c Hss.
  - simpl in *. destruct (Text.isspace c); [ | done ].
    by rewrite andb_false_r in Hss.
  - rewrite last_cons_cons. apply (IH c'). by apply single_spaced_tail in Hss.
Qed.

(** A text that begins, after whitespace, with a normalized marker [m]
    keeps the marker at the head of its normal form. *)
Lemma normalize_text_marker (m ws t : str) :
  m ≠ [] -> normalized m = true -> forallb Text.isspace ws = true ->
  normalize_text (ws ++ m ++ t) =
  m ++ Text.sub_runs_go Text.isspace [32%N] false (Text.rstrip_by Text.isspace t).
Proof.
  intros Hne Hm Hws. pose proof (normalized_fixed m Hm) as Hfix.
  pose proof (normalized_last m Hm) as Hlast.
  unfold normalize_text, Text.sub_runs, Text.strip, Text.strip_by in *.
  change (Text.lit " ") with [32%N] in *.
  rewrite lstrip_by_app_all by done.
  destruct m as [ | c m]; [done | ]. unfold normalized in Hm.
  apply andb_true_iff in Hm as [Hc Hss]. apply negb_true_iff in Hc.
  assert (Text.lstrip_by Text.isspace ((c :: m) ++ t) = (c :: m) ++ t) as ->
    by (simpl; by rewrite Hc).
  assert (Text.lstrip_by Text.isspace (c :: m) = c :: m) as Hl
    by (simpl; by rewrite Hc).
  rewrite Hl in Hfix.
  rewrite rstrip_by_app_fixed; [ | done | by apply single_spaced_rstrip ].
  rewrite (single_spaced_rstrip _ Hss) in Hfix.
  by rewrite sub_runs_go_app, Hfix, Hlast.
Qed.

Lemma sub_runs_go_rstrip_head (t : str) :
  head t ≠ Some period ->
  ¬ [period] `prefix_of`
      Text.sub_runs_go Text.isspace [32%N] false (Text.rstrip_by Text.isspace t).
Proof.
  intros Hhead [k Hk]. destruct t as [ | c t]; [done | ].
  destruct (rstrip_by_head Text.isspace c t) as [E | [r E]]; rewrite E in Hk;
    [done | ].
  cbn [Text.sub_runs_go] in Hk. destruct (Text.isspace c) eqn:Hc.
  - by injection Hk.
  - injection Hk as -> _. by apply Hhead.
Qed.

(** X3. What comes before and after a marker does not matter to
    [classify_day]: after any leading whitespace, the pre-holiday marker
    followed by any text gives shortened; the day-off marker and a period
    followed by any text give holiday; the day-off marker followed by a
    text that does not begin with a period gives dayoff. *)
Theorem classify_day_markers (ws t : str) :
  forallb Text.isspace ws = true ->
  classify_day (ws ++ PRE_HOLIDAY ++ t) = Some shortened /\
  classify_day (ws ++ DAY_OFF ++ period :: t) = Some holiday /\
  (head t ≠ Some period -> classify_day (ws ++ DAY_OFF ++ t) = Some dayoff).
Proof.
  intros Hws. rewrite !classify_day_cases. cbv zeta.
  rewrite <- !normalize_text_reference. split; [ | split ].
  - rewrite (normalize_text_marker PRE_HOLIDAY) by done.
    rewrite decide_True; [done | apply prefix_app_r, reflexivity ].
  - change (DAY_OFF ++ period :: t) with (DAY_OFF_PERIOD ++ t).
    rewrite (normalize_text_marker DAY_OFF_PERIOD) by done.
    change DAY_OFF_PERIOD with (DAY_OFF ++ [period]).
    rewrite decide_False, decide_True;
      [done | apply prefix_app_r, reflexivity | ].
    intros Hp. assert (prefix (DAY_OFF ++ [period]) ((DAY_OFF ++ [period]) ++
      Text.sub_runs_go Text.isspace [32%N] false (Text.rstrip_by Text.isspace t)))
      as Hq by apply prefix_app_r, reflexivity.
    by pose proof (prefix_heads _ _ _ _ _ Hp Hq).
  - intros Hhead. rewrite (normalize_text_marker DAY_OFF) by done.
    assert (DAY_OFF `prefix_of` DAY_OFF ++
      Text.sub_runs_go Text.isspace [32%N] false (Text.rstrip_by Text.isspace t))
      as Hq by apply prefix_app_r, reflexivity.
    rewrite decide_False, decide_False, decide_True; [done | done | | ].
    + intros Hp%prefix_app_inv. by apply (sub_runs_go_rstrip_head t).
    + intros Hp. by pose proof (prefix_heads _ _ _ _ _ Hp Hq).
Qed.

Lemma classify_day_markers_witness :
  classify_day (Text.lit "  " ++ PRE_HOLIDAY ++ Text.lit "!") = Some shortened /\
  classify_day (Text.lit "  " ++ DAY_OFF ++ period :: Text.lit "!") = Some holiday /\
  (head (Text.lit "!") ≠ Some period ->
   classify_day (Text.lit "  " ++ DAY_OFF ++ Text.lit "!") = Some dayoff).
Proof. apply (classify_day_markers (Text.lit "  ") (Text.lit "!")). reflexivity. Defined.

(** X4. A hint made of whitespace only, the empty hint among them, is not
    classified. *)
Theorem classify_day_blank (hint : str) :
  forallb Text.isspace hint = true -> classify_day hint = None.
Proof.
  intros H%normalize_text_blank. unfold classify_day. by rewrite H.
Qed.

Lemma classify_day_blank_witness : classify_day (Text.lit " ") = None.
Proof. apply (classify_day_blank (Text.lit " ")). reflexivity. Defined.

(** ** build_non_working_dates *)

Lemma for_each_add_entry_Raise (es : list (Z * Z * Z * str)) (S0 : gset date)
    (e : exn) :
  for_each es add_entry S0 = Raise e ->
  exists y m d kind,
    (y, m, d, kind) ∈ es /\ (kind = holiday \/ kind = dayoff) /\
    ¬ is_date y m d /\ Date.new y m d = Raise e.
Proof.
  revert S0. induction es as [ | [[[y m] d] kind] es IH]; intros S0; simpl;
    [done | ].
  assert (forall S1, for_each es add_entry S1 = Raise e ->
            exists y' m' d' kind',
              (y', m', d', kind') ∈ (y, m, d, kind) :: es /\
              (kind' = holiday \/ kind' = dayoff) /\
              ¬ is_date y' m' d' /\ Date.new y' m' d' = Raise e) as Hrest.
  { intros S1 (y' & m' & d' & kind' & Hin & Hk & Hd)%IH.
    exists y', m', d', kind'. split; [by apply list_elem_of_further | done]. }
  case_bool_decide as Hk; simpl; [ | by apply Hrest ].
  destruct (Date.new y m d) as [dt | e'] eqn:Hnew; simpl; [by apply Hrest | ].
  intros [= <-].
  exists y, m, d, kind. split; [apply list_elem_of_here | ].
  split; [by apply non_working_kind | ]. split; [ | done ].
  intros [dt Hdt]%is_date_new. congruence.
Qed.

Lemma for_each_add_entry_Ok_dates (es : list (Z * Z * Z * str))
    (S0 S1 : gset date) :
  for_each es add_entry S0 = Ok S1 ->
  forall y m d kind,
    (y, m, d, kind) ∈ es -> kind = holiday \/ kind = dayoff -> is_date y m d.
Proof.
  revert S0. induction es as [ | [[[y m] d] kind] es IH]; intros S0; simpl.
  - intros _ y m d kind Hin. by apply elem_of_nil in Hin.
  - intros H y' m' d' kind' Hin Hk'.
    apply elem_of_cons in Hin as [[= -> -> -> ->] | Hin].
    + rewrite bool_decide_eq_true_2 in H by (by apply non_working_kind).
      destruct (Date.new y m d) as [dt | ] eqn:Hnew; [ | done ].
      apply is_date_new. by eexists.
    + case_bool_decide; simpl in H.
      * destruct (Date.new y m d); simpl in H; [ | done ].
        by apply (IH _ H y' m' d' kind').
      * by apply (IH _ H y' m' d' kind').
Qed.

(** X5. [build_non_working_dates] raises exactly when some entry recorded
    as holiday or dayoff is not a date of the calendar; an entry of another
    kind (shortened) is never checked. When the recorded years, months and
    days are within the range of the date constructor's arguments, what it
    raises is the constructor's ValueError. *)
Theorem build_non_working_dates_raises
    (months_by_year : gmap Z (list (gmap Z str))) :
  ((exists e, build_non_working_dates months_by_year = Raise e) <->
   exists y m d kind,
     recorded months_by_year y m d kind /\ (kind = holiday \/ kind = dayoff) /\
     ¬ is_date y m d) /\
  ((forall y m d kind,
      recorded months_by_year y m d kind ->
      fits_int y /\ fits_int m /\ fits_int d) ->
   forall e, build_non_working_dates months_by_year = Raise e ->
     e = ValueError DateOutOfRange).
Proof.
  rewrite build_non_working_dates_entries. split; [split | ].
  - intros [e (y & m & d & kind & Hin & Hk & Hd & _)%for_each_add_entry_Raise].
    exists y, m, d, kind. split; [by apply elem_of_entries | done].
  - intros (y & m & d & kind & Hrec & Hk & Hd).
    destruct (for_each (entries months_by_year) add_entry ∅) as [S | e] eqn:H;
      [ | by eexists ].
    exfalso. apply Hd.
    apply (for_each_add_entry_Ok_dates _ _ _ H y m d kind); [ | done ].
    by apply elem_of_entries.
  - intros Hfit e (y & m & d & kind & Hin & _ & _ & Hnew)%for_each_add_entry_Raise.
    apply elem_of_entries, Hfit in Hin as (Hy & Hm & Hd).
    by apply (new_Raise_fits y m d).
Qed.

Lemma build_non_working_dates_raises_witness :
  build_non_working_dates february_30 = Raise (ValueError DateOutOfRange).
Proof.
  destruct (build_non_working_dates_raises february_30) as [Hraise Hkind].
  destruct (proj2 Hraise) as [e He].
  - exists 2024, 2, 30, holiday. split; [ | split; [by left | by vm_compute] ].
    apply elem_of_entries.
    replace (entries february_30) with [(2024, 2, 30, holiday)]
      by (vm_compute; reflexivity).
    apply list_elem_of_singleton. reflexivity.
  - rewrite He. f_equal. apply Hkind; [ | done ].
    intros y m d kind Hrec%elem_of_entries.
    replace (entries february_30) with [(2024, 2, 30, holiday)] in Hrec
      by (vm_compute; reflexivity).
    apply list_elem_of_singleton in Hrec as [= -> -> -> ->].
    unfold fits_int. lia.
Defined.

(** X6. With the non-working set built from the calendars and the
    calendars' years as coverage, as [main] sets them up: every date of
    the set lies in a covered year; a date of a covered year is a working
    day exactly when the calendars do not record it as holiday or dayoff,
    and a date of any other year exactly when it is a Monday to Friday. *)
Theorem is_working_day_of_calendars
    (months_by_year : gmap Z (list (gmap Z str))) (S : gset date) :
  build_non_working_dates months_by_year = Ok S ->
  (forall d : date, d ∈ S -> Date.year d ∈ dom months_by_year) /\
  (forall d : date,
     Date.year d ∈ dom months_by_year ->
     (is_working_day d S (dom months_by_year) = true <->
      ¬ exists kind,
          recorded months_by_year (Date.year d) (Date.month d) (Date.day d) kind /\
          (kind = holiday \/ kind = dayoff))) /\
  (forall d : date,
     Date.year d ∉ dom months_by_year ->
     (is_working_day d S (dom months_by_year) = true <-> Date.weekday d < 5)).
Proof.
  intros HS. pose proof (build_non_working_dates_Ok _ _ HS) as Hin.
  assert (forall d : date, d ∈ S -> Date.year d ∈ dom months_by_year) as Hdom.
  { intros d (kind & (months & _ & Hy & _) & _)%Hin.
    apply elem_of_dom. by eexists. }
  split; [done | ]. split.
  - intros d Hcov. unfold is_working_day. rewrite decide_True by done.
    by rewrite bool_decide_eq_true, Hin.
  - intros d Hcov. unfold is_working_day. rewrite decide_False by done.
    destruct (Z.leb_spec 5 (Date.weekday d)).
    + split; [done | lia].
    + rewrite bool_decide_eq_true. split; [done | ]. intros _ Hd.
      by apply Hcov, Hdom.
Qed.

Lemma january_2024_builds :
  exists S : gset date, build_non_working_dates january_2024 = Ok S.
Proof.
  apply build_non_working_dates_returns. intros y m d kind Hrec Hk.
  apply recorded_january_2024 in Hrec as (-> & -> & [[-> ->] | [-> ->]]).
  - exact I.
  - by destruct Hk.
Qed.

Lemma is_working_day_of_calendars_witness :
  exists S : gset date,
    build_non_working_dates january_2024 = Ok S /\
    (is_working_day monday_1_jan_2024 S (dom january_2024) = true <->
     ¬ exists kind,
         recorded january_2024 2024 1 1 kind /\ (kind = holiday \/ kind = dayoff)).
Proof.
  destruct january_2024_builds as [S HS].
  exists S. split; [done | ].
  apply (proj1 (proj2 (is_working_day_of_calendars january_2024 S HS))
           monday_1_jan_2024).
  apply elem_of_dom. by eexists.
Defined.

(** ** shift_to_previous_working_day *)

(** X7. The shift returns a date exactly when some date at or before the
    start is a working day; otherwise the walk reaches 0001-01-01 and the
    subtraction raises OverflowError. Nothing else is ever raised. *)
Theorem shift_to_previous_working_day_outcome
    (d : date) (N : gset date) (C : gset Z) :
  ((exists r, shift_to_previous_working_day d N C = Ok r) <->
   exists w, Date.le w d /\ is_working_day w N C = true) /\
  (shift_to_previous_working_day d N C = Raise OverflowError <->
   forall x, Date.le x d -> is_working_day x N C = false) /\
  (forall e, shift_to_previous_working_day d N C = Raise e -> e = OverflowError).
Proof.
  split; [ | split ].
  - split.
    + intros [r (Hle & Hw & _)%shift_returns]. by exists r.
    + intros (w & Hle & Hw).
      destruct (shift_reaches d w N C Hle Hw) as (_ & r & _ & Hr). by exists r.
  - split.
    + by intros [_ H]%shift_raises.
    + intros Hall.
      destruct (shift_to_previous_working_day d N C) as [r | e] eqn:Hs.
      * apply shift_returns in Hs as (Hle & Hw & _).
        rewrite (Hall r Hle) in Hw. done.
      * by apply shift_raises in Hs as [-> _].
  - by intros e [-> _]%shift_raises.
Qed.

Lemma shift_monotone (d1 d2 r1 r2 : date) (N : gset date) (C : gset Z) :
  shift_to_previous_working_day d1 N C = Ok r1 ->
  shift_to_previous_working_day d2 N C = Ok r2 ->
  Date.le d1 d2 -> Date.le r1 r2.
Proof.
  intros (Hle1 & Hw1 & _)%shift_returns (Hle2 & Hw2 & Hb2)%shift_returns Hd.
  apply le_key. apply le_key in Hle1, Hle2, Hd.
  destruct (Z.le_gt_cases (key r1) (key r2)) as [ | Hgt]; [done | ].
  rewrite (Hb2 r1) in Hw1; [done | by apply lt_key | apply le_key; lia].
Qed.

(** X8. Shifting is idempotent and monotone: the returned date shifts to
    itself, and of two start dates the later one never shifts to an
    earlier date than the other. *)
Theorem shift_to_previous_working_day_monotone
    (d1 d2 r1 r2 : date) (N : gset date) (C : gset Z) :
  shift_to_previous_working_day d1 N C = Ok r1 ->
  shift_to_previous_working_day d2 N C = Ok r2 ->
  shift_to_previous_working_day r1 N C = Ok r1 /\
  (Date.le d1 d2 -> Date.le r1 r2).
Proof.
  intros H1 H2. split; [ | by apply (shift_monotone d1 d2 r1 r2 N C) ].
  apply shift_returns in H1 as (_ & Hw1 & _). by rewrite shift_unfold, Hw1.
Qed.

Lemma shift_to_previous_working_day_monotone_witness :
  shift_to_previous_working_day friday_5_jan_2024 no_dates no_years
  = Ok friday_5_jan_2024 /\
  (Date.le saturday_6_jan_2024 sunday_7_jan_2024 ->
   Date.le friday_5_jan_2024 friday_5_jan_2024).
Proof.
  apply (shift_to_previous_working_day_monotone
           saturday_6_jan_2024 sunday_7_jan_2024
           friday_5_jan_2024 friday_5_jan_2024 no_dates no_years);
    vm_compute; reflexivity.
Defined.

Lemma sub_one_day_total (d : date) :
  Date.weekday d ≠ 0 -> exists d', Date.sub_one_day d = Ok d'.
Proof.
  intros Hw. destruct (Date.sub_one_day d) as [d' | e] eqn:Hs; [by eexists | ].
  apply sub_one_day_raise in Hs as [_ Hf]. exfalso. apply Hw.
  unfold Date.weekday, Date.toordinal. unfold Date.fields in Hf.
  by injection Hf as -> -> ->.
Qed.

(** X9. Where nothing is known about the days around a date (it and the
    two days before it are in years without coverage and not in the
    non-working set), the shift is the weekend rule: a Monday to Friday
    stays, a Saturday moves back one day and a Sunday two. *)
Theorem shift_to_previous_working_day_weekend
    (d : date) (N : gset date) (C : gset Z) :
  (forall x, Date.le x d -> Date.toordinal d - Date.toordinal x <= 2 ->
     (Date.year x ∉ C) /\ (x ∉ N)) ->
  exists r,
    shift_to_previous_working_day d N C = Ok r /\
    Date.toordinal d - Date.toordinal r = Z.max 0 (Date.weekday d - 4).
Proof.
  intros Hfree.
  assert (forall x, Date.le x d -> Date.toordinal d - Date.toordinal x <= 2 ->
            is_working_day x N C = negb (5 <=? Date.weekday x)) as Hwd.
  { intros x Hle Hnear. destruct (Hfree x Hle Hnear) as [HC HN].
    unfold is_working_day. rewrite decide_False by done.
    destruct (5 <=? Date.weekday x); [done | ]. by rewrite bool_decide_eq_true_2. }
  pose proof (weekday_range d) as Hr.
  rewrite shift_unfold, (Hwd d) by (by right || lia).
  destruct (Z.leb_spec 5 (Date.weekday d)) as [H5 | H5]; simpl;
    [ | exists d; split; [done | lia] ].
  destruct (sub_one_day_total d) as [d1 Hd1]; [lia | ].
  pose proof (toordinal_sub_one_day d d1 Hd1) as Ho1.
  pose proof (weekday_sub_one_day d d1 Hd1) as Hw1.
  pose proof (sub_one_day_lt d d1 Hd1) as Hlt1.
  rewrite Hd1. simpl. rewrite shift_unfold, (Hwd d1) by (by left || lia).
  destruct (Z.leb_spec 5 (Date.weekday d1)) as [H51 | H51]; simpl.
  - destruct (sub_one_day_total d1) as [d2 Hd2].
    { rewrite Hw1. intros E. apply Z.mod_divide in E; [ | lia ].
      destruct E as [q E]. lia. }
    pose proof (toordinal_sub_one_day d1 d2 Hd2) as Ho2.
    pose proof (weekday_sub_one_day d1 d2 Hd2) as Hw2.
    pose proof (sub_one_day_lt d1 d2 Hd2) as Hlt2.
    assert (Date.lt d2 d) as Hlt.
    { apply lt_key. apply lt_key in Hlt1, Hlt2. lia. }
    rewrite Hd2. simpl. rewrite shift_unfold, (Hwd d2) by (by left || lia).
    assert (Date.weekday d = 6 /\ Date.weekday d1 = 5 /\ Date.weekday d2 = 4)
      as (Hd & Hd1' & Hd2').
    { rewrite Hw2, Hw1 in *. clear - Hr H5 H51.
      Z.div_mod_to_equations. lia. }
    rewrite Hd2'. simpl. exists d2. split; [done | ]. rewrite Hd. lia.
  - exists d1. split; [done | ].
    assert (Date.weekday d = 5) as ->; [ | lia ].
    rewrite Hw1 in H51. clear - Hr H5 H51.
    Z.div_mod_to_equations. lia.
Qed.

Lemma shift_to_previous_working_day_weekend_witness :
  exists r,
    shift_to_previous_working_day sunday_7_jan_2024 no_dates no_years = Ok r /\
    Date.toordinal sunday_7_jan_2024 - Date.toordinal r
    = Z.max 0 (Date.weekday sunday_7_jan_2024 - 4).
Proof.
  apply (shift_to_previous_working_day_weekend sunday_7_jan_2024 no_dates no_years).
  intros x _ _. split; apply not_elem_of_empty.
Defined.

(** ** parse_rules *)

Lemma parse_part_parsed (rules rules' : list (Z * str)) (part : str) :
  parse_part rules part = Ok rules' ->
  exists r, rules' = rules ++ [r] /\ parsed_as part r.
Proof.
  unfold parse_part. case_bool_decide as Hcolon; simpl; [ | done ].
  destruct (split_first_cut colon part Hcolon) as [Hcut Hnot].
  destruct (Text.split_first colon part) as [day_s label]; simpl in *.
  destruct (Text.isdigit (Text.strip day_s)); simpl; [ | done ].
  destruct (Text.int (Text.strip day_s)) as [day | ] eqn:Hint; simpl; [ | done ].
  destruct (Z.ltb_spec day 1); simpl; [done | ].
  destruct (Z.ltb_spec 31 day); simpl; [done | ].
  destruct (is_empty (Text.strip label)) eqn:Hlabel; [done | ].
  intros [= <-]. exists (day, Text.strip label). split; [done | ].
  exists day_s, label. simpl. apply int_literal in Hint as [Hlit Hcap].
  split; [done | ]. split; [done | ]. split; [done | ]. split; [done | ].
  split; [lia | ]. split; [done | ]. intros E. by rewrite E in Hlabel.
Qed.

Lemma for_each_parse_part_parsed (parts : list str) (rules rules' : list (Z * str)) :
  for_each parts parse_part rules = Ok rules' ->
  exists new, rules' = rules ++ new /\ Forall2 parsed_as parts new.
Proof.
  revert rules. induction parts as [ | part parts IH]; intros rules; simpl.
  - intros [= <-]. exists []. by rewrite app_nil_r.
  - destruct (parse_part rules part) as [rules1 | ] eqn:Hp; simpl; [ | done ].
    apply parse_part_parsed in Hp as (r & -> & Hr).
    intros (new & -> & Hnew)%IH. exists (r :: new).
    split; [by rewrite <- app_assoc | by constructor].
Qed.

(** X10. What [parse_rules] returns: every trimmed, non-empty segment of
    the input gives one rule, the integer before its first colon and the
    trimmed text after it (which may contain further colons), with a day of
    1..31 and a label that is not empty; the rules are returned sorted by
    day, those of the same day in the order of the input. *)
Theorem parse_rules_returns (rules_str : str) (rules : list (Z * str)) :
  parse_rules rules_str = Ok rules ->
  exists in_order : list (Z * str),
    Forall2 parsed_as (parts_of rules_str) in_order /\
    rules ≡ₚ in_order /\
    StronglySorted (fun a b => a.1 <= b.1) rules /\
    (forall k, filter (fun r => r.1 = k) rules = filter (fun r => r.1 = k) in_order).
Proof.
  unfold parse_rules. fold (parts_of rules_str).
  destruct (is_empty (Text.strip rules_str)); [done | ].
  destruct (for_each (parts_of rules_str) parse_part []) as [rules0 | ] eqn:Hloop;
    simpl; [ | done ].
  intros [= <-]. apply for_each_parse_part_parsed in Hloop as (new & -> & Hnew).
  exists new. simpl. split; [done | ]. split; [apply sort_by_day_Permutation | ].
  split; [apply sort_by_day_sorted | intros k; apply sort_by_day_stable].
Qed.

Lemma parse_rules_returns_witness :
  exists in_order : list (Z * str),
    Forall2 parsed_as (parts_of default_rules_text) in_order /\
    default_rules ≡ₚ in_order /\
    StronglySorted (fun a b => a.1 <= b.1) default_rules /\
    (forall k, filter (fun r => r.1 = k) default_rules
               = filter (fun r => r.1 = k) in_order).
Proof.
  apply (parse_rules_returns default_rules_text default_rules).
  vm_compute. reflexivity.
Defined.

(** The days written in decimal. *)
Lemma of_int_day (n : Z) :
  1 <= n <= 31 ->
  (exists c s, Text.of_int n = c :: s /\ Text.isspace c = false) /\
  forallb is_decimal_digit (Text.of_int n) = true /\
  Text.strip (Text.of_int n) = Text.of_int n /\
  Text.isdigit (Text.of_int n) = true /\
  Text.int (Text.of_int n) = Ok n.
Proof.
  intros Hn. replace n with (Z.of_nat (Z.to_nat n)) by lia.
  assert (0 < Z.to_nat n < 32)%nat as Hk by lia.
  generalize dependent (Z.to_nat n). intros k Hk.
  destruct k as [ | k]; [lia | ].
  do 31 (destruct k as [ | k];
         [split; [by eexists _, _ | by vm_compute] | ]).
  lia.
Qed.

Lemma decimal_digit_chars (c : N) :
  is_decimal_digit c = true -> c ≠ colon /\ c ≠ semicolon.
Proof.
  unfold is_decimal_digit, colon, semicolon.
  intros [?%N.leb_le ?%N.leb_le]%andb_true_iff. lia.
Qed.

Lemma digits_not_elem (s : str) (c : N) :
  forallb is_decimal_digit s = true -> c = colon \/ c = semicolon -> c ∉ s.
Proof.
  induction s as [ | x s IH]; simpl; [intros; apply not_elem_of_nil | ].
  intros [Hx Hs]%andb_true_iff Hc. apply not_elem_of_cons.
  split; [ | by apply IH ].
  destruct (decimal_digit_chars x Hx). by destruct Hc as [-> | ->].
Qed.

Lemma strip_fixed_ends (l : str) :
  l ≠ [] -> Text.strip l = l ->
  (exists c s, l = c :: s /\ Text.isspace c = false) /\
  Text.rstrip_by Text.isspace l = l.
Proof.
  intros Hne Hl. split.
  - pose proof (lstrip_by_head Text.isspace l) as Hh.
    unfold Text.strip, Text.strip_by in Hl.
    destruct (Text.lstrip_by Text.isspace l) as [ | c t]; [by subst | ].
    destruct (rstrip_by_head Text.isspace c t) as [E | [r E]];
      rewrite E in Hl; subst; [done | by eexists _, _].
  - rewrite <- Hl at 1. unfold Text.strip, Text.strip_by.
    rewrite rstrip_by_idemp. exact Hl.
Qed.

Lemma rstrip_by_app_end (p : N -> bool) (a l : str) :
  l ≠ [] -> Text.rstrip_by p l = l -> Text.rstrip_by p (a ++ l) = a ++ l.
Proof.
  intros Hne Hl.
  assert (forallb p l = false) as Hall.
  { destruct (forallb p l) eqn:H; [ | done ]. apply rstrip_by_nil in H.
    congruence. }
  induction a as [ | c a IH]; [done | ].
  rewrite <- app_comm_cons, rstrip_by_cons, IH.
  change (c :: a ++ l) with ((c :: a) ++ l).
  by rewrite forallb_app, Hall, andb_false_r.
Qed.

Lemma strip_ends (c : N) (a l : str) :
  Text.isspace c = false -> l ≠ [] -> Text.rstrip_by Text.isspace l = l ->
  Text.strip (c :: a ++ l) = c :: a ++ l.
Proof.
  intros Hc Hne Hl. unfold Text.strip, Text.strip_by. simpl. rewrite Hc.
  by apply (rstrip_by_app_end Text.isspace (c :: a) l).
Qed.

Lemma strip_format_rule (r : Z * str) :
  writable_rule r -> Text.strip (format_rule r) = format_rule r.
Proof.
  intros (Hday & Hne & Hstrip & _). unfold format_rule.
  destruct (of_int_day r.1 Hday) as ((c & s & -> & Hc) & _).
  destruct (strip_fixed_ends r.2 Hne Hstrip) as [_ Hend].
  rewrite <- app_comm_cons.
  replace (s ++ colon :: r.2) with ((s ++ [colon]) ++ r.2)
    by (by rewrite <- app_assoc).
  by apply strip_ends.
Qed.

Lemma format_rule_no_semicolon (r : Z * str) :
  writable_rule r -> semicolon ∉ format_rule r.
Proof.
  intros (Hday & _ & _ & Hsemi). unfold format_rule.
  destruct (of_int_day r.1 Hday) as (_ & Hdigits & _).
  rewrite elem_of_app, elem_of_cons. intros [H | [H | H]]; [ | done | done ].
  by apply (digits_not_elem _ semicolon Hdigits); [right | ].
Qed.

Lemma format_rules_cons (r r' : Z * str) (rules : list (Z * str)) :
  format_rules (r :: r' :: rules) =
  format_rule r ++ semicolon :: format_rules (r' :: rules).
Proof. reflexivity. Qed.

Lemma format_rules_ends (rules : list (Z * str)) :
  rules ≠ [] -> Forall writable_rule rules ->
  exists c a l,
    format_rules rules = c :: a ++ l /\ Text.isspace c = false /\
    l ≠ [] /\ Text.rstrip_by Text.isspace l = l.
Proof.
  intros Hne Hall. induction Hall as [ | r rules Hr Hall IH]; [done | ].
  destruct Hr as (Hday & Hlne & Hstrip & Hsemi).
  destruct (of_int_day r.1 Hday) as ((c & s & Hs & Hc) & _).
  destruct (strip_fixed_ends r.2 Hlne Hstrip) as [_ Hend].
  destruct rules as [ | r' rules].
  - exists c, (s ++ [colon]), r.2. simpl. unfold format_rule. rewrite Hs.
    split; [by rewrite <- app_assoc | done].
  - destruct IH as (c' & a' & l' & E & _ & Hl' & Hend'); [done | ].
    exists c, (s ++ colon :: r.2 ++ semicolon :: c' :: a'), l'.
    rewrite format_rules_cons, E. unfold format_rule. rewrite Hs.
    split; [ | done ]. simpl. rewrite <- !app_assoc. simpl.
    by rewrite <- !app_assoc.
Qed.

Lemma strip_format_rules (rules : list (Z * str)) :
  rules ≠ [] -> Forall writable_rule rules ->
  Text.strip (format_rules rules) = format_rules rules.
Proof.
  intros Hne Hall.
  destruct (format_rules_ends rules Hne Hall) as (c & a & l & -> & ? & ? & ?).
  by apply strip_ends.
Qed.

Lemma split_no_sep (sep : N) (a : str) :
  sep ∉ a -> Text.split sep a = [a].
Proof.
  induction a as [ | c a IH]; [done | ].
  intros [Hc Ha]%not_elem_of_cons. simpl.
  destruct (N.eqb_spec c sep) as [-> | _]; [done | ]. by rewrite (IH Ha).
Qed.

Lemma split_app_sep (sep : N) (a rest : str) :
  sep ∉ a -> Text.split sep (a ++ sep :: rest) = a :: Text.split sep rest.
Proof.
  induction a as [ | c a IH]; simpl.
  - intros _. by rewrite N.eqb_refl.
  - intros [Hc Ha]%not_elem_of_cons.
    destruct (N.eqb_spec c sep) as [-> | _]; [done | ]. by rewrite (IH Ha).
Qed.

Lemma split_format_rules (rules : list (Z * str)) :
  rules ≠ [] -> Forall writable_rule rules ->
  Text.split semicolon (format_rules rules) = format_rule <$> rules.
Proof.
  intros Hne Hall. induction Hall as [ | r rules Hr Hall IH]; [done | ].
  pose proof (format_rule_no_semicolon r Hr) as Hsemi.
  destruct rules as [ | r' rules].
  - simpl. by rewrite split_no_sep.
  - rewrite format_rules_cons, split_app_sep by done.
    by rewrite IH.
Qed.

Lemma parse_part_format_rule (acc : list (Z * str)) (r : Z * str) :
  writable_rule r -> parse_part acc (format_rule r) = Ok (acc ++ [r]).
Proof.
  intros (Hday & Hne & Hstrip & _). unfold parse_part, format_rule.
  destruct (of_int_day r.1 Hday) as (_ & Hdigits & Hs & Hisdigit & Hint).
  rewrite bool_decide_eq_true_2
    by (apply elem_of_app; right; apply list_elem_of_here).
  rewrite split_first_unique by (by apply digits_not_elem; [ | left]).
  simpl. rewrite Hs, Hisdigit, Hint, Hstrip. simpl.
  destruct (Z.ltb_spec r.1 1); [lia | ]. destruct (Z.ltb_spec 31 r.1); [lia | ].
  simpl. destruct r as [day label]; simpl in *. by destruct label.
Qed.

Lemma for_each_parse_part_format (acc rules : list (Z * str)) :
  Forall writable_rule rules ->
  for_each (format_rule <$> rules) parse_part acc = Ok (acc ++ rules).
Proof.
  intros Hall. revert acc.
  induction Hall as [ | r rules Hr Hall IH]; intros acc; simpl.
  - by rewrite app_nil_r.
  - rewrite parse_part_format_rule by done. simpl.
    rewrite IH. by rewrite <- app_assoc.
Qed.

(** X11. Writing and parsing back: the text of a non-empty list of rules
    in the format "DAY:LABEL;DAY:LABEL" (days of 1..31; labels not empty,
    without whitespace at their ends and without semicolons, colons
    allowed) parses to the same rules, sorted by day with the rules of one
    day in their written order. *)
Theorem parse_rules_format_rules (rules : list (Z * str)) :
  rules ≠ [] -> Forall writable_rule rules ->
  exists sorted : list (Z * str),
    parse_rules (format_rules rules) = Ok sorted /\
    sorted ≡ₚ rules /\
    StronglySorted (fun a b => a.1 <= b.1) sorted /\
    (forall k, filter (fun r => r.1 = k) sorted = filter (fun r => r.1 = k) rules).
Proof.
  intros Hne Hall. exists (sort_by_day rules).
  split; [ | split; [apply sort_by_day_Permutation | ];
             split; [apply sort_by_day_sorted | intros k; apply sort_by_day_stable] ].
  unfold parse_rules. rewrite strip_format_rules by done.
  assert (is_empty (format_rules rules) = false) as ->.
  { destruct rules as [ | r rules]; [done | ].
    apply Forall_cons in Hall as [(Hday & _) _].
    destruct (of_int_day r.1 Hday) as ((c & s & Hs & _) & _).
    cbn [format_rules]. unfold format_rule. rewrite Hs. by destruct rules. }
  rewrite split_format_rules by done.
  assert (filter (fun p => Text.strip p ≠ []) (format_rule <$> rules)
          = format_rule <$> rules) as ->.
  { clear Hne. induction Hall as [ | r rules Hr Hall IH]; [done | ].
    rewrite fmap_cons, filter_cons, IH, decide_True; [done | ].
    rewrite strip_format_rule by done.
    destruct Hr as (Hday & _). destruct (of_int_day r.1 Hday) as ((c & s & Hs & _) & _).
    unfold format_rule. by rewrite Hs. }
  assert (map Text.strip (format_rule <$> rules) = format_rule <$> rules) as ->.
  { clear Hne. induction Hall as [ | r rules Hr Hall IH]; [done | ].
    rewrite fmap_cons. simpl. rewrite strip_format_rule by done. f_equal.
    exact IH. }
  by rewrite for_each_parse_part_format.
Qed.

Lemma parse_rules_format_rules_witness :
  exists sorted : list (Z * str),
    parse_rules (format_rules from_9_to_5) = Ok sorted /\
    sorted ≡ₚ from_9_to_5 /\
    StronglySorted (fun a b => a.1 <= b.1) sorted /\
    (forall k, filter (fun r => r.1 = k) sorted
               = filter (fun r => r.1 = k) from_9_to_5).
Proof.
  apply (parse_rules_format_rules from_9_to_5); [done | ].
  repeat constructor; try done; try (vm_compute; intros [=]).
  all: apply (bool_decide_unpack _); vm_compute; exact I.
Defined.

(** ** make_salary_event *)

Lemma add_one_day_date_max (d : date) :
  (exists e, Date.add_one_day d = Raise e) <-> d = date_max.
Proof.
  split.
  - intros [e He]. apply Date.date_ext.
    destruct (decide (Date.fields d = (9999, 12, 31))) as [ | Hne]; [done | ].
    destruct (add_one_day_total d Hne) as [d' Hd']. congruence.
  - intros ->. by exists OverflowError.
Qed.

Lemma make_salary_event_returns (now : timestamp) (y m d : Z)
    (actual : date) (label : str) (e : Event) :
  make_salary_event now y m d actual label = Ok e ->
  dtstart e = actual /\
  Date.toordinal (dtend e) = Date.toordinal (dtstart e) + 1 /\
  summary e = label /\ dtstamp e = now /\
  (description e = None <-> Date.fields actual = (y, m, d)).
Proof.
  intros (_ & Hst & Hsum & Hnow & Hend & base & Hbase & Hdesc)%make_salary_event_Ok.
  rewrite Hst. split; [done | ]. split; [by apply toordinal_add_one_day | ].
  split; [done | ]. split; [done | ]. rewrite Hdesc.
  apply new_Ok in Hbase. rewrite <- Hbase. split; [by intros -> | ].
  apply Date.date_ext.
Qed.

(** X12. The outcome of [make_salary_event], for an intended year, month
    and day within the range of the date constructor's arguments: it
    raises OverflowError exactly when the actual date is 9999-12-31 (the
    end day does not exist), and otherwise ValueError exactly when the
    intended year, month and day are not a date; in every other case it
    returns an event that starts on the actual date and ends on the day
    after, carries the label and the clock reading, and has a description
    exactly when the actual date differs from the intended one. *)
Theorem make_salary_event_outcome (now : timestamp) (y m d : Z)
    (actual : date) (label : str) :
  fits_int y -> fits_int m -> fits_int d ->
  (make_salary_event now y m d actual label = Raise OverflowError <->
   actual = date_max) /\
  (make_salary_event now y m d actual label = Raise (ValueError DateOutOfRange) <->
   actual ≠ date_max /\ ¬ is_date y m d) /\
  ((exists e, make_salary_event now y m d actual label = Ok e) <->
   actual ≠ date_max /\ is_date y m d) /\
  (forall e, make_salary_event now y m d actual label = Ok e ->
     dtstart e = actual /\
     Date.toordinal (dtend e) = Date.toordinal (dtstart e) + 1 /\
     summary e = label /\ dtstamp e = now /\
     (description e = None <-> Date.fields actual = (y, m, d))).
Proof.
  intros Hfy Hfm Hfd.
  pose proof (add_one_day_date_max actual) as Hmax.
  pose proof (is_date_new y m d) as Hdate.
  pose proof (make_salary_event_returns now y m d actual label) as Hok.
  unfold make_salary_event in *.
  destruct (Date.add_one_day actual) as [end_day | e1] eqn:Hadd; simpl.
  - assert (actual ≠ date_max) as Hne.
    { intros E. apply Hmax in E as [? ?]. congruence. }
    destruct (Date.new y m d) as [base | e2] eqn:Hnew; simpl.
    + assert (is_date y m d) by (apply Hdate; by eexists).
      split; [by split | ]. split; [split; [done | by intros [_ ?]] | ].
      split; [ | done ]. split; [done | intros _; by eexists].
    + assert (¬ is_date y m d) as Hnd by (rewrite Hdate; by intros [? ?]).
      apply (new_Raise_fits y m d e2 Hfy Hfm Hfd) in Hnew as ->.
      split; [by split | ]. split; [by split | ].
      split; [ | done ]. split; [by intros [? ?] | by intros [_ ?]].
  - assert (actual = date_max) as -> by (apply Hmax; by eexists).
    apply add_one_day_raise in Hadd as ->.
    split; [by split | ]. split; [split; [done | by intros [? _]] | ].
    split; [ | done ]. split; [by intros [? ?] | by intros [? _]].
Qed.

Lemma make_salary_event_outcome_witness :
  (fits_int 2024 /\ fits_int 2 /\ fits_int 30) /\
  make_salary_event 0 2024 2 30 friday_5_jan_2024 (Text.lit "Salary")
  = Raise (ValueError DateOutOfRange).
Proof.
  assert (fits_int 2024 /\ fits_int 2 /\ fits_int 30) as Hfit
    by (unfold fits_int; lia).
  split; [exact Hfit | ]. destruct Hfit as (Hy & Hm & Hd).
  apply (make_salary_event_outcome 0 2024 2 30 friday_5_jan_2024
           (Text.lit "Salary") Hy Hm Hd).
  split; [ | by vm_compute ].
  intros E. apply (f_equal Date.fields) in E. by vm_compute in E.
Defined.

(** ** The identifier *)

Lemma uint_chars_uid (u : Decimal.uint) :
  Forall (fun c => is_uid_char c = true) (Text.uint_chars u).
Proof. induction u; simpl; by repeat constructor. Qed.

Lemma of_int_padded_uid (w : nat) (n : Z) :
  0 <= n -> Forall (fun c => is_uid_char c = true) (Text.of_int_padded w n).
Proof.
  intros Hn. unfold Text.of_int_padded.
  destruct n as [ | q | q]; simpl; [ | | lia ];
    (apply Forall_app; split; [ | apply uint_chars_uid || by repeat constructor ]);
    by apply Forall_replicate.
Qed.

(** X13. Whatever the label (in any script, with any punctuation), the
    identifier made for a date is plain ASCII: lower-case letters, digits,
    hyphens and the at sign, between the fixed head "ru-salary-" and the
    fixed tail "@salary-ics". *)
Theorem make_uid_alphabet (y m d : Z) (label : str) :
  is_date y m d ->
  Forall (fun c => is_uid_char c = true) (make_uid y m d label) /\
  Text.lit "ru-salary-" `prefix_of` make_uid y m d label /\
  Text.lit "@salary-ics" `suffix_of` make_uid y m d label.
Proof.
  intros Hd. apply Date.check_date_args_spec in Hd as (Hy & Hm & Hday).
  unfold Date.MINYEAR in Hy. unfold make_uid. split; [ | split ].
  - repeat (apply Forall_app; split).
    + by vm_compute; repeat constructor.
    + destruct (of_int_nonneg y) as (u & _ & ->); [lia | ]. apply uint_chars_uid.
    + apply of_int_padded_uid. lia.
    + apply of_int_padded_uid. lia.
    + by vm_compute; repeat constructor.
    + destruct (safe_of_alphabet label) as [_ Hsafe].
      eapply Forall_impl; [exact Hsafe | ]. intros c Hc. unfold is_uid_char.
      by rewrite Hc.
    + by vm_compute; repeat constructor.
  - by apply prefix_app_r.
  - rewrite !app_assoc. by apply suffix_app_r.
Qed.

Lemma make_uid_alphabet_witness :
  Forall (fun c => is_uid_char c = true)
    (make_uid 2024 1 5 (Text.lit "Зарплата, аванс")) /\
  Text.lit "ru-salary-" `prefix_of` make_uid 2024 1 5 (Text.lit "Зарплата, аванс") /\
  Text.lit "@salary-ics" `suffix_of` make_uid 2024 1 5 (Text.lit "Зарплата, аванс").
Proof. apply (make_uid_alphabet 2024 1 5 (Text.lit "Зарплата, аванс")). exact I. Defined.

(** ** generate_salary_events *)

Lemma for_each_generate_step_made (clock : nat -> timestamp) (tick : nat) (y : Z)
    (N : gset date) (C : gset Z) (cs : list (Z * (Z * str)))
    (events es : list Event) :
  for_each cs (generate_step clock tick y N C) events = Ok es ->
  exists new,
    es = events ++ new /\
    Forall2 (event_made y N C) (filter (fun c => is_date y c.1 c.2.1) cs) new.
Proof.
  revert events. induction cs as [ | c cs IH]; intros events; simpl.
  - intros [= <-]. exists []. by rewrite app_nil_r.
  - destruct (generate_step clock tick y N C events c) as [es1 | ?] eqn:Hstep;
      simpl; [ | done ].
    intros (new & -> & Hnew)%IH. rewrite filter_cons.
    unfold generate_step in Hstep.
    destruct (Date.new y c.1 c.2.1) as [base | e0] eqn:Hbase.
    + rewrite decide_True by (apply is_date_new; by eexists).
      destruct (shift_to_previous_working_day base N C) as [actual | ] eqn:Hs;
        simpl in Hstep; [ | done ].
      destruct (make_salary_event _ y c.1 c.2.1 actual c.2.2) as [e | ] eqn:He;
        simpl in Hstep; [ | done ].
      injection Hstep as <-. exists (e :: new).
      split; [by rewrite <- app_assoc | ]. constructor; [ | done ].
      by exists base, actual, (clock (tick + length events)%nat).
    + rewrite decide_False by (intros [dt Hdt]%is_date_new; congruence).
      apply new_Raise in Hbase as [[-> _] | [-> _]]; [ | done ].
      injection Hstep as <-. by exists new.
Qed.

Lemma event_made_shifted (y : Z) (N : gset date) (C : gset Z)
    (c : Z * (Z * str)) (e : Event) :
  event_made y N C c e ->
  exists base : date,
    Date.fields base = (y, c.1, c.2.1) /\ summary e = c.2.2 /\
    shifted_event N C base e.
Proof.
  intros (base & actual & now & Hbase & Hs & He).
  destruct (make_salary_event_returns now y c.1 c.2.1 actual c.2.2 e He)
    as (Hst & Hend & Hsum & _ & Hdesc).
  apply new_Ok in Hbase. exists base. split; [done | ]. split; [done | ].
  pose proof (shift_returns _ _ _ _ Hs) as (Hle & Hw & Hbetween).
  unfold shifted_event. rewrite Hst. split; [done | ]. split; [done | ].
  split; [done | ]. split; [by rewrite <- Hst | ].
  rewrite Hdesc, <- Hbase. split.
  - intros E%Date.date_ext. by subst.
  - intros Hwb. rewrite shift_unfold, Hwb in Hs. by injection Hs as <-.
Qed.

(** X14. Every event [generate_salary_events] returns is an all-day event
    (it ends the day after it starts) that carries the label of its rule
    and starts on the nearest working day at or before the intended date
    of its (month, rule) combination: no day after it up to the intended
    date is a working day. It has a description exactly when the intended
    date is not itself a working day. *)
Theorem generate_salary_events_shifted (clock : nat -> timestamp) (tick : nat)
    (year : Z) (N : gset date) (C : gset Z) (rules : list (Z * str))
    (events : list Event) :
  generate_salary_events clock tick year N C rules = Ok events ->
  Forall2
    (fun c e =>
       exists base : date,
         Date.fields base = (year, c.1, c.2.1) /\ summary e = c.2.2 /\
         shifted_event N C base e)
    (filter (fun c => is_date year c.1 c.2.1) (combos rules)) events.
Proof.
  rewrite generate_salary_events_combos.
  intros (new & -> & Hnew)%for_each_generate_step_made. simpl.
  eapply Forall2_impl; [exact Hnew | ]. apply event_made_shifted.
Qed.

Lemma generate_salary_events_shifted_witness :
  exists events,
    generate_salary_events zero_clock 0 2024 no_dates no_years day_7_salary
    = Ok events /\
    Forall2
      (fun c e =>
         exists base : date,
           Date.fields base = (2024, c.1, c.2.1) /\ summary e = c.2.2 /\
           shifted_event no_dates no_years base e)
      (filter (fun c => is_date 2024 c.1 c.2.1) (combos day_7_salary)) events.
Proof.
  eexists. split; [vm_compute; reflexivity | ].
  apply (generate_salary_events_shifted zero_clock 0 2024 no_dates no_years
           day_7_salary).
  vm_compute. reflexivity.
Defined.

Lemma length_combos (rules : list (Z * str)) :
  length (combos rules) = (12 * length rules)%nat.
Proof.
  unfold combos. change (range 1 13) with [1; 2; 3; 4; 5; 6; 7; 8; 9; 10; 11; 12].
  rewrite !bind_cons, !length_app, !length_fmap. simpl. lia.
Qed.

Lemma filter_Forall_id {A} (P : A -> Prop) `{!forall x, Decision (P x)}
    (l : list A) :
  Forall P l -> filter P l = l.
Proof.
  induction 1 as [ | x l Hx _ IH]; [done | ].
  by rewrite filter_cons, decide_True, IH.
Qed.

Lemma month_of_range (m : Z) : m ∈ range 1 13 <-> 1 <= m <= 12.
Proof. unfold range. rewrite elem_of_seqZ. lia. Qed.

(** X15. In a year [generate_salary_events] returns at most twelve events
    for every rule, and exactly twelve for every rule when the year is one
    of 1..9999 and the day of every rule is one of 1..28. *)
Theorem generate_salary_events_count (clock : nat -> timestamp) (tick : nat)
    (year : Z) (N : gset date) (C : gset Z) (rules : list (Z * str))
    (events : list Event) :
  generate_salary_events clock tick year N C rules = Ok events ->
  (length events <= 12 * length rules)%nat /\
  (1 <= year <= 9999 -> Forall (fun r => 1 <= r.1 <= 28) rules ->
   length events = (12 * length rules)%nat).
Proof.
  rewrite generate_salary_events_combos.
  intros (new & -> & Hnew)%for_each_generate_step_made. cbn [app].
  apply Forall2_length in Hnew. rewrite <- Hnew, <- (length_combos rules). split.
  - apply length_filter.
  - intros Hy Hdays. f_equal. apply filter_Forall_id.
    apply Forall_forall. intros c [Hm Hr]%elem_of_combos.
    apply month_of_range in Hm.
    rewrite Forall_forall in Hdays. specialize (Hdays _ Hr).
    apply Date.check_date_args_spec.
    pose proof (Date.days_in_month_range year c.1 Hm).
    unfold Date.MINYEAR, Date.MAXYEAR. lia.
Qed.

Lemma generate_salary_events_count_witness :
  exists events,
    generate_salary_events zero_clock 0 2024 no_dates no_years default_rules
    = Ok events /\
    (length events <= 12 * length default_rules)%nat /\
    (1 <= 2024 <= 9999 -> Forall (fun r => 1 <= r.1 <= 28) default_rules ->
     length events = (12 * length default_rules)%nat).
Proof.
  eexists. split; [vm_compute; reflexivity | ].
  apply (generate_salary_events_count zero_clock 0 2024 no_dates no_years
           default_rules).
  vm_compute. reflexivity.
Defined.

Lemma for_each_generate_step_no_such_year (clock : nat -> timestamp)
    (tick : nat) (year : Z) (N : gset date) (C : gset Z)
    (cs : list (Z * (Z * str))) (events : list Event) :
  fits_int year -> Forall (fun c => fits_int c.1 /\ fits_int c.2.1) cs ->
  year < 1 \/ 9999 < year ->
  for_each cs (generate_step clock tick year N C) events = Ok events.
Proof.
  intros Hfy Hfit Hy. revert events.
  induction Hfit as [ | c cs [Hfm Hfd] _ IH]; intros events; [done | ].
  simpl. unfold generate_step at 2.
  destruct (Date.new year c.1 c.2.1) as [base | e] eqn:Hbase.
  - assert (Hd : is_date year c.1 c.2.1) by (apply is_date_new; by eexists).
    apply Date.check_date_args_spec in Hd.
    unfold Date.MINYEAR, Date.MAXYEAR in Hd. lia.
  - apply (new_Raise_fits _ _ _ _ Hfy Hfm Hfd) in Hbase as ->. simpl. apply IH.
Qed.

(** X16. For a year outside 1..9999 no intended date exists: with the
    year and the days of the rules within the range of the date
    constructor's arguments, [generate_salary_events] skips every
    combination and returns the empty list, whatever the calendars are. *)
Theorem generate_salary_events_no_such_year (clock : nat -> timestamp)
    (tick : nat) (year : Z) (N : gset date) (C : gset Z)
    (rules : list (Z * str)) :
  fits_int year -> Forall (fun r => fits_int r.1) rules ->
  year < 1 \/ 9999 < year ->
  generate_salary_events clock tick year N C rules = Ok [].
Proof.
  intros Hfy Hdays Hy. rewrite generate_salary_events_combos.
  apply for_each_generate_step_no_such_year; [done | | done].
  apply Forall_forall. intros c [Hm Hr]%elem_of_combos.
  apply month_of_range in Hm.
  rewrite Forall_forall in Hdays. split; [unfold fits_int; lia | by apply Hdays].
Qed.

Lemma generate_salary_events_no_such_year_witness :
  (fits_int 10000 /\ Forall (fun r => fits_int r.1) default_rules /\
   (10000 < 1 \/ 9999 < 10000)) /\
  generate_salary_events zero_clock 0 10000 no_dates no_years default_rules
  = Ok [].
Proof.
  assert (fits_int 10000 /\ Forall (fun r => fits_int r.1) default_rules /\
          (10000 < 1 \/ 9999 < 10000)) as Hyp.
  { unfold fits_int, default_rules. split; [lia | ].
    split; [ | lia ]. repeat constructor; simpl; lia. }
  split; [exact Hyp | ]. destruct Hyp as (Hy & Hr & Hout).
  exact (generate_salary_events_no_such_year zero_clock 0 10000 no_dates
           no_years default_rules Hy Hr Hout).
Defined.

(** ** build_calendar *)

Lemma ltb_irrefl (d : date) : Date.ltb d d = false.
Proof.
  destruct (Date.ltb d d) eqn:E; [ | done ].
  assert (Date.lt d d) as H by (unfold Date.lt; by rewrite E).
  apply lt_key in H. lia.
Qed.

Lemma ltb_false_le (a b : date) : Date.ltb a b = false -> Date.le b a.
Proof.
  intros E. apply le_key.
  destruct (Z.le_gt_cases (key b) (key a)) as [ | Hgt]; [done | ].
  assert (Date.lt a b) as H by (apply lt_key; lia).
  unfold Date.lt in H. by rewrite E in H.
Qed.

Lemma insert_by_dtstart_Permutation (e : Event) (l : list Event) :
  insert_by_dtstart e l ≡ₚ e :: l.
Proof.
  induction l as [ | e' l IH]; simpl; [done | ].
  destruct (Date.ltb _ _); [ | done ]. by rewrite IH, Permutation_swap.
Qed.

Lemma sort_by_dtstart_Permutation (l : list Event) : sort_by_dtstart l ≡ₚ l.
Proof.
  induction l as [ | e l IH]; simpl; [done | ].
  by rewrite insert_by_dtstart_Permutation, IH.
Qed.

Lemma insert_by_dtstart_sorted (e : Event) (l : list Event) :
  StronglySorted starts_le l -> StronglySorted starts_le (insert_by_dtstart e l).
Proof.
  induction 1 as [ | e' l Hl IH He']; simpl; [by repeat constructor | ].
  destruct (Date.ltb (dtstart e') (dtstart e)) eqn:Hlt.
  - constructor; [done | ].
    rewrite insert_by_dtstart_Permutation. constructor; [ | done ].
    left. unfold Date.lt. by rewrite Hlt.
  - apply ltb_false_le in Hlt.
    constructor; [by constructor | ]. constructor; [done | ].
    eapply Forall_impl; [exact He' | ]. intros x Hx.
    unfold starts_le in *. apply le_key. apply le_key in Hlt, Hx. lia.
Qed.

Lemma sort_by_dtstart_sorted (l : list Event) :
  StronglySorted starts_le (sort_by_dtstart l).
Proof.
  induction l as [ | e l IH]; simpl; [constructor | ].
  by apply insert_by_dtstart_sorted.
Qed.

Lemma insert_by_dtstart_stable (d : date) (e : Event) (l : list Event) :
  filter (fun x => dtstart x = d) (insert_by_dtstart e l) =
  filter (fun x => dtstart x = d) (e :: l).
Proof.
  induction l as [ | e' l IH]; simpl; [done | ].
  destruct (Date.ltb (dtstart e') (dtstart e)) eqn:Hlt; [ | done ].
  rewrite (filter_cons _ e'), IH, !(filter_cons _ e), !(filter_cons _ e').
  repeat case_decide; try done.
  assert (dtstart e' = dtstart e) as E by congruence.
  rewrite E, ltb_irrefl in Hlt. done.
Qed.

Lemma sort_by_dtstart_stable (d : date) (l : list Event) :
  filter (fun x => dtstart x = d) (sort_by_dtstart l) =
  filter (fun x => dtstart x = d) l.
Proof.
  induction l as [ | e l IH]; simpl; [done | ].
  by rewrite insert_by_dtstart_stable, !filter_cons, IH.
Qed.

(** Sorting changes nothing in a list that is in order. *)
Lemma sort_by_dtstart_id (l : list Event) :
  StronglySorted starts_le l -> sort_by_dtstart l = l.
Proof.
  induction 1 as [ | e l Hl IH He]; [done | ].
  cbn [sort_by_dtstart foldr]. fold (sort_by_dtstart l). rewrite IH.
  destruct l as [ | e' l']; [done | ]. simpl.
  apply Forall_cons in He as [He _].
  destruct (Date.ltb (dtstart e') (dtstart e)) eqn:Hlt; [ | done ].
  assert (Date.lt (dtstart e') (dtstart e)) as H
    by (unfold Date.lt; by rewrite Hlt).
  apply lt_key in H. apply le_key in He. lia.
Qed.

(** X17. The components of the calendar [build_calendar] returns are the
    events it was given, in the order of their start dates, and events
    that start on the same date keep the order they came in; events that
    come in that order already are left as they are. *)
Theorem build_calendar_components (events : list Event) (calname : str) :
  components (build_calendar events calname) ≡ₚ events /\
  StronglySorted starts_le (components (build_calendar events calname)) /\
  (forall d : date,
     filter (fun e => dtstart e = d) (components (build_calendar events calname))
     = filter (fun e => dtstart e = d) events) /\
  (StronglySorted starts_le events ->
   components (build_calendar events calname) = events).
Proof.
  cbn [build_calendar components].
  split; [apply sort_by_dtstart_Permutation | ].
  split; [apply sort_by_dtstart_sorted | ].
  split; [intros d; apply sort_by_dtstart_stable | apply sort_by_dtstart_id].
Qed.

(** ** The first loop of main *)

Lemma range_seqZ (lo hi : Z) : range lo hi = seqZ lo (Z.of_nat (Z.to_nat (hi - lo))).
Proof. unfold range, seqZ. by rewrite Nat2Z.id. Qed.

Lemma elem_of_range (lo hi y : Z) : y ∈ range lo hi <-> lo <= y < hi.
Proof. unfold range. rewrite elem_of_seqZ. lia. Qed.

(** The map after the loop over [lo], [lo + 1], ..: what was in it, and the
    pages of the years up to the first one without data. *)
Lemma load_calendars_lookup (parse_year : Z -> fetched) (n : nat) (lo : Z)
    (M0 M : gmap Z (list (gmap Z str))) :
  (forall y, is_Some (M0 !! y) -> y < lo) ->
  load_calendars parse_year (seqZ lo (Z.of_nat n)) M0 = Some M ->
  forall y months,
    M !! y = Some months <->
    M0 !! y = Some months \/
    (lo <= y < lo + Z.of_nat n /\ parse_year y = Page months /\
     forall y', lo <= y' <= y -> has_page parse_year y').
Proof.
  revert lo M0. induction n as [ | n IH]; intros lo M0 Hlow.
  - simpl. intros [= <-] y months. split; [by left | ].
    intros [? | [? _]]; [done | lia].
  - rewrite seqZ_cons by lia.
    replace (Z.pred (Z.of_nat (S n))) with (Z.of_nat n) by lia.
    cbn [load_calendars].
    assert (M0 = M ->
              ¬ has_page parse_year lo ->
              forall y months,
                M !! y = Some months <->
                M0 !! y = Some months \/
                (lo <= y < lo + Z.of_nat (S n) /\ parse_year y = Page months /\
                 forall y', lo <= y' <= y -> has_page parse_year y')) as Hstop.
    { intros <- Hno y months. split; [by left | ].
      intros [? | (Hy & _ & Hall)]; [done | ].
      exfalso. apply Hno, Hall. lia. }
    destruct (parse_year lo) as [[ | m ms] | | ] eqn:Hlo; [ | | | done ].
    + intros [= E]. apply Hstop; [done | ].
      intros (months & Hm & Hne). congruence.
    + intros Hload y months.
      rewrite (IH (Z.succ lo) (<[lo := m :: ms]> M0)); [ | | exact Hload ].
      * rewrite lookup_insert_Some. split.
        -- intros [[[<- <-] | [Hne H0]] | (Hy & Hp & Hall)].
           ++ right. split; [lia | ]. split; [done | ].
              intros y' Hy'. assert (y' = lo) as -> by lia. by exists (m :: ms).
           ++ by left.
           ++ right. split; [lia | ]. split; [done | ].
              intros y' Hy'. destruct (decide (y' = lo)) as [-> | ?].
              ** by exists (m :: ms).
              ** apply Hall. lia.
        -- intros [H0 | (Hy & Hp & Hall)].
           ++ left. right. split; [ | done ].
              intros <-. assert (lo < lo) by (apply Hlow; by eexists). lia.
           ++ destruct (decide (y = lo)) as [-> | Hne].
              ** left. left. split; [done | ]. congruence.
              ** right. split; [lia | ]. split; [done | ].
                 intros y' Hy'. apply Hall. lia.
      * intros k [x Hx]. apply lookup_insert_Some in Hx as [[<- _] | [_ Hx]]; [lia | ].
        assert (k < lo) by (apply Hlow; by eexists). lia.
    + intros [= E]. apply Hstop; [done | ].
      intros (months & Hm & Hne). congruence.
Qed.

Lemma load_calendars_range (parse_year : Z -> fetched) (lo hi : Z)
    (M : gmap Z (list (gmap Z str))) :
  load_calendars parse_year (range lo hi) ∅ = Some M ->
  forall y months,
    M !! y = Some months <->
    lo <= y < hi /\ parse_year y = Page months /\
    forall y', lo <= y' <= y -> has_page parse_year y'.
Proof.
  rewrite range_seqZ. intros Hload y months.
  assert (forall k : Z,
            is_Some ((∅ : gmap Z (list (gmap Z str))) !! k) -> k < lo) as Hlow.
  { intros k [x Hx]. by rewrite lookup_empty in Hx. }
  rewrite (load_calendars_lookup _ _ _ _ _ Hlow Hload y months).
  rewrite lookup_empty. split.
  - intros [? | (Hy & Hp & Hall)]; [done | ]. split; [lia | done].
  - intros (Hy & Hp & Hall). right. split; [lia | done].
Qed.

(** X18. The first loop of [main] stops at the first year without data:
    the years it keeps are the years of the range before any year without
    data, each with the page [parse_year] returned for it. A year with
    data after such a gap is not kept. *)
Theorem load_calendars_prefix (parse_year : Z -> fetched) (lo hi : Z)
    (M : gmap Z (list (gmap Z str))) :
  load_calendars parse_year (range lo hi) ∅ = Some M ->
  (forall y,
     y ∈ dom M <->
     lo <= y < hi /\ forall y', lo <= y' <= y -> has_page parse_year y') /\
  (forall y months, M !! y = Some months -> parse_year y = Page months) /\
  (forall y y', y ∈ dom M -> lo <= y' <= y -> y' ∈ dom M).
Proof.
  intros Hload. pose proof (load_calendars_range _ _ _ _ Hload) as Hlook.
  assert (forall y,
            y ∈ dom M <->
            lo <= y < hi /\ forall y', lo <= y' <= y -> has_page parse_year y')
    as Hdom.
  { intros y. rewrite elem_of_dom. split.
    - intros [months (Hy & _ & Hall)%Hlook]. done.
    - intros [Hy Hall]. destruct (Hall y) as (months & Hp & _); [lia | ].
      exists months. by apply Hlook. }
  split; [exact Hdom | ]. split.
  - by intros y months (_ & Hp & _)%Hlook.
  - intros y y' [Hy Hall]%Hdom Hy'. apply Hdom. split; [lia | ].
    intros y'' Hy''. apply Hall. lia.
Qed.

Lemma load_calendars_prefix_witness :
  exists M : gmap Z (list (gmap Z str)),
    load_calendars pages_2023_2024 (range 2023 2027) ∅ = Some M /\
    (2024 ∈ dom M <->
     2023 <= 2024 < 2027 /\
     forall y', 2023 <= y' <= 2024 -> has_page pages_2023_2024 y').
Proof.
  eexists. split; [reflexivity | ].
  apply (load_calendars_prefix pages_2023_2024 2023 2027). reflexivity.
Defined.

(** ** The order of the generated events *)

Section Sorted.
Context {A B : Type}.

Lemma StronglySorted_filter (R : relation A) (P : A -> Prop)
    `{!forall x, Decision (P x)} (l : list A) :
  StronglySorted R l -> StronglySorted R (filter P l).
Proof.
  induction 1 as [ | x l Hl IH Hx]; [constructor | ].
  rewrite filter_cons. case_decide; [ | done ]. constructor; [done | ].
  apply Forall_forall. intros y [_ Hy]%list_elem_of_filter.
  rewrite Forall_forall in Hx. by apply Hx.
Qed.

Lemma StronglySorted_bind (R' : relation A) (R : relation B)
    (f : A -> list B) (l : list A) :
  StronglySorted R' l ->
  (forall a, StronglySorted R (f a)) ->
  (forall a b x y, R' a b -> x ∈ f a -> y ∈ f b -> R x y) ->
  StronglySorted R (l ≫= f).
Proof.
  intros Hl Hf Hcross. induction Hl as [ | a l Hl IH Ha]; [constructor | ].
  rewrite bind_cons. apply StronglySorted_app_2; [ | done | done ].
  intros x y Hx (b & Hy & Hb)%list_elem_of_bind.
  rewrite Forall_forall in Ha. by apply (Hcross a b); [apply Ha | | ].
Qed.

Lemma Forall_Forall2_transfer (P : A -> Prop) (P' : B -> Prop)
    (Q : A -> B -> Prop) (l : list A) (k : list B) :
  (forall a b, P a -> Q a b -> P' b) ->
  Forall P l -> Forall2 Q l k -> Forall P' k.
Proof.
  intros H Hl HQ. induction HQ as [ | a b l k Hab HQ IH]; [constructor | ].
  apply Forall_cons in Hl as [Ha Hl]. constructor; [by apply (H a) | by apply IH].
Qed.

Lemma StronglySorted_Forall2 (R : relation A) (R' : relation B)
    (Q : A -> B -> Prop) (l : list A) (k : list B) :
  (forall a b a' b', R a b -> Q a a' -> Q b b' -> R' a' b') ->
  StronglySorted R l -> Forall2 Q l k -> StronglySorted R' k.
Proof.
  intros H Hl HQ. induction HQ as [ | a a' l k Ha HQ IH]; [constructor | ].
  apply StronglySorted_cons in Hl as [Hal Hl]. constructor; [by apply IH | ].
  apply (Forall_Forall2_transfer (R a) (R' a') Q l k); [ | done | done ].
  intros b b' Hab Hb. by apply (H a b).
Qed.

End Sorted.

Lemma seqZ_sorted (n : nat) (lo : Z) : StronglySorted Z.lt (seqZ lo (Z.of_nat n)).
Proof.
  revert lo. induction n as [ | n IH]; intros lo; [constructor | ].
  rewrite seqZ_cons by lia.
  replace (Z.pred (Z.of_nat (S n))) with (Z.of_nat n) by lia.
  constructor; [apply IH | ].
  apply Forall_forall. intros y Hy%elem_of_seqZ. lia.
Qed.

Lemma range_sorted (lo hi : Z) : StronglySorted Z.lt (range lo hi).
Proof. rewrite range_seqZ. apply seqZ_sorted. Qed.

Lemma elem_of_covered_prefix (years : list Z) (C : gset Z) (y : Z) :
  y ∈ covered_prefix years C -> y ∈ years /\ y ∈ C.
Proof.
  induction years as [ | y' years IH]; simpl; [by intros ?%elem_of_nil | ].
  case_decide as Hc; [by intros ?%elem_of_nil | ].
  intros [<- | Hy]%elem_of_cons.
  - split; [left | ]. by destruct (decide (y ∈ C)).
  - destruct (IH Hy). split; [by right | done].
Qed.

Lemma covered_prefix_sorted (years : list Z) (C : gset Z) :
  StronglySorted Z.lt years -> StronglySorted Z.lt (covered_prefix years C).
Proof.
  induction 1 as [ | y years Hs IH Hy]; simpl; [constructor | ].
  case_decide; [constructor | ]. constructor; [done | ].
  apply Forall_forall. intros y' [Hy' _]%elem_of_covered_prefix.
  rewrite Forall_forall in Hy. by apply Hy.
Qed.

Lemma combos_sorted (rules : list (Z * str)) :
  StronglySorted (fun a b => a.1 <= b.1) rules ->
  StronglySorted combo_le (combos rules).
Proof.
  intros Hrules. unfold combos.
  apply (StronglySorted_bind Z.lt); [apply range_sorted | | ].
  - intros month. eapply StronglySorted_fmap; [ | exact Hrules ].
    intros a b Hab. by right.
  - intros m m' c c' Hm (r & -> & _)%list_elem_of_fmap (r' & -> & _)%list_elem_of_fmap.
    by left.
Qed.

Lemma run_combos_sorted (years : list Z) (C : gset Z) (rules : list (Z * str)) :
  StronglySorted Z.lt years ->
  StronglySorted (fun a b => a.1 <= b.1) rules ->
  StronglySorted run_combo_le (run_combos years C rules).
Proof.
  intros Hyears Hrules. unfold run_combos.
  apply (StronglySorted_bind Z.lt); [by apply covered_prefix_sorted | | ].
  - intros year. eapply StronglySorted_fmap;
      [ | apply StronglySorted_filter, combos_sorted, Hrules ].
    intros a b Hab. by right.
  - intros y y' x x' Hy (c & -> & _)%list_elem_of_fmap (c' & -> & _)%list_elem_of_fmap.
    by left.
Qed.

(** The events of a run, read off its combinations. *)
Lemma collect_events_made (clock : nat -> timestamp) (years : list Z)
    (N : gset date) (C : gset Z) (rules : list (Z * str))
    (events es : list Event) :
  collect_events clock years N C rules events = Ok es ->
  exists new,
    es = events ++ new /\
    Forall2 (fun x e => event_made x.1 N C x.2 e) (run_combos years C rules) new.
Proof.
  revert events es. induction years as [ | y years IH]; intros events es.
  - intros [= <-]. exists []. by rewrite app_nil_r.
  - rewrite run_combos_cons. cbn [collect_events]. case_decide as Hcov.
    + intros [= <-]. exists []. by rewrite app_nil_r.
    + rewrite generate_salary_events_combos.
      destruct (for_each _ _ _) as [es1 | ?] eqn:Hgen; [ | done ].
      apply for_each_generate_step_made in Hgen as (new1 & -> & Hnew1).
      rewrite app_nil_l. intros (new & -> & Hnew)%IH. exists (new1 ++ new).
      split; [by rewrite <- app_assoc | ].
      apply Forall2_app; [ | done ]. by apply Forall2_fmap_l.
Qed.

(** Combinations in the order of the loops give events in the order of
    their start dates: the intended dates are in order, and the shift is
    monotone. *)
Lemma event_made_order (N : gset date) (C : gset Z)
    (x x' : Z * (Z * (Z * str))) (e e' : Event) :
  run_combo_le x x' ->
  event_made x.1 N C x.2 e -> event_made x'.1 N C x'.2 e' ->
  starts_le e e'.
Proof.
  intros Hle (base & actual & now & Hbase & Hs & He)
    (base' & actual' & now' & Hbase' & Hs' & He').
  unfold starts_le.
  apply make_salary_event_Ok in He as (_ & -> & _).
  apply make_salary_event_Ok in He' as (_ & -> & _).
  apply (shift_monotone base base' _ _ N C Hs Hs').
  apply new_Ok in Hbase, Hbase'. apply le_key.
  pose proof (Date.bounds base). pose proof (Date.bounds base').
  unfold Date.fields in Hbase, Hbase'.
  injection Hbase as Hy Hm Hd. injection Hbase' as Hy' Hm' Hd'.
  unfold key. unfold run_combo_le, combo_le in Hle. lia.
Qed.

Lemma collect_events_sorted (clock : nat -> timestamp) (lo hi : Z)
    (N : gset date) (C : gset Z) (rules : list (Z * str)) (events : list Event) :
  StronglySorted (fun a b => a.1 <= b.1) rules ->
  collect_events clock (range lo hi) N C rules [] = Ok events ->
  StronglySorted starts_le events.
Proof.
  intros Hrules (new & -> & Hnew)%collect_events_made. rewrite app_nil_l.
  eapply StronglySorted_Forall2;
    [ | apply (run_combos_sorted _ C _ (range_sorted lo hi) Hrules) | exact Hnew ].
  intros x x' e e'. apply event_made_order.
Qed.

Lemma parse_rules_sorted (rules_str : str) (rules : list (Z * str)) :
  parse_rules rules_str = Ok rules ->
  StronglySorted (fun a b => a.1 <= b.1) rules.
Proof.
  unfold parse_rules.
  destruct (is_empty (Text.strip rules_str)); [done | ].
  destruct (for_each _ parse_part []) as [rules0 | ]; simpl; [ | done ].
  intros [= <-]. apply sort_by_day_sorted.
Qed.

(** ** main *)

Lemma main_Written (parse_year : Z -> fetched) (clock : nat -> timestamp)
    (start_year end_year : Z) (rules_arg calendar_name : str) (cal : Calendar) :
  main parse_year clock start_year end_year rules_arg calendar_name = Written cal ->
  exists rules M N events,
    parse_rules rules_arg = Ok rules /\
    load_calendars parse_year (range (start_year - 1) (end_year + 1)) ∅ = Some M /\
    build_non_working_dates M = Ok N /\
    collect_events clock (range start_year (end_year + 1)) N (dom M) rules []
    = Ok events /\
    cal = build_calendar events calendar_name.
Proof.
  unfold main.
  destruct (parse_rules rules_arg) as [rules | ] eqn:Hrules; [ | done ].
  destruct (load_calendars _ _ _) as [M | ] eqn:Hload; [ | done ].
  destruct (build_non_working_dates M) as [N | ] eqn:Hbuild; [ | done ].
  destruct (collect_events _ _ _ _ _ _) as [events | ] eqn:Hev; [ | done ].
  intros [= <-]. by exists rules, M, N, events.
Qed.

(** X19. In a run of [main] the sort of [build_calendar] changes nothing:
    the rules are in the order of their days and the shift is monotone, so
    the events are generated in the order of their start dates, and the
    calendar holds them in the order of generation. *)
Theorem main_components_in_order (parse_year : Z -> fetched)
    (clock : nat -> timestamp) (start_year end_year : Z)
    (rules_arg calendar_name : str) (cal : Calendar) :
  main parse_year clock start_year end_year rules_arg calendar_name = Written cal ->
  exists rules M N,
    parse_rules rules_arg = Ok rules /\
    load_calendars parse_year (range (start_year - 1) (end_year + 1)) ∅ = Some M /\
    build_non_working_dates M = Ok N /\
    collect_events clock (range start_year (end_year + 1)) N (dom M) rules []
    = Ok (components cal).
Proof.
  intros (rules & M & N & events & Hrules & Hload & Hbuild & Hev & ->)%main_Written.
  exists rules, M, N. split; [done | ]. split; [done | ]. split; [done | ].
  cbn [build_calendar components]. rewrite sort_by_dtstart_id; [done | ].
  apply parse_rules_sorted in Hrules.
  by apply (collect_events_sorted clock start_year (end_year + 1) N (dom M) rules).
Qed.

Lemma main_components_in_order_witness :
  exists cal,
    main pages_2023_2024 zero_clock 2024 2024 default_rules_text salary_calendar
    = Written cal /\
    exists rules M N,
      parse_rules default_rules_text = Ok rules /\
      load_calendars pages_2023_2024 (range (2024 - 1) (2024 + 1)) ∅ = Some M /\
      build_non_working_dates M = Ok N /\
      collect_events zero_clock (range 2024 (2024 + 1)) N (dom M) rules []
      = Ok (components cal).
Proof.
  eexists. split; [vm_compute; reflexivity | ].
  apply (main_components_in_order pages_2023_2024 zero_clock 2024 2024
           default_rules_text salary_calendar).
  vm_compute. reflexivity.
Defined.

Lemma year_le (a b : date) : Date.le a b -> Date.year a <= Date.year b.
Proof.
  intros H%le_key. pose proof (Date.bounds a). pose proof (Date.bounds b).
  unfold key in H. lia.
Qed.

(** X20. In a run of [main] no event starts after the last requested
    year, and an event that starts in the year before the first requested
    one or later starts in a year with a page, on a day the pages do not
    record as holiday or dayoff: the weekend rule for years without a page
    is not what placed it. *)
Theorem main_events_on_working_days (parse_year : Z -> fetched)
    (clock : nat -> timestamp) (start_year end_year : Z)
    (rules_arg calendar_name : str) (cal : Calendar) :
  main parse_year clock start_year end_year rules_arg calendar_name = Written cal ->
  exists M,
    load_calendars parse_year (range (start_year - 1) (end_year + 1)) ∅ = Some M /\
    forall ev, ev ∈ components cal ->
      Date.year (dtstart ev) <= end_year /\
      (start_year - 1 <= Date.year (dtstart ev) ->
       Date.year (dtstart ev) ∈ dom M /\
       ¬ exists kind,
           recorded M (Date.year (dtstart ev)) (Date.month (dtstart ev))
             (Date.day (dtstart ev)) kind /\
           (kind = holiday \/ kind = dayoff)).
Proof.
  intros (rules & M & N & events & Hrules & Hload & Hbuild & Hev & ->)%main_Written.
  exists M. split; [done | ]. intros ev Hin.
  cbn [build_calendar components] in Hin.
  rewrite sort_by_dtstart_Permutation in Hin.
  apply collect_events_made in Hev as (new & -> & Hnew). rewrite app_nil_l in Hin.
  apply list_elem_of_lookup in Hin as [i Hi].
  destruct (Forall2_lookup_r _ _ _ _ _ Hnew Hi) as (x & Hx & Hmade).
  apply list_elem_of_lookup_2, elem_of_run_combos in Hx as (Hyear & _ & _).
  apply elem_of_covered_prefix in Hyear as [Hrange Hcov].
  apply elem_of_range in Hrange.
  destruct Hmade as (base & actual & now & Hbase & Hs & Hmk).
  apply make_salary_event_Ok in Hmk as (_ & -> & _).
  apply shift_returns in Hs as (Hle & Hw & _). apply year_le in Hle.
  apply new_Ok in Hbase. unfold Date.fields in Hbase. injection Hbase as Hy _ _.
  split; [lia | ]. intros Hlow.
  pose proof (load_calendars_range _ _ _ _ Hload) as Hlook.
  assert (Date.year actual ∈ dom M) as Hdom.
  { apply elem_of_dom in Hcov as [months (_ & _ & Hall)%Hlook].
    destruct (Hall (Date.year actual)) as (months' & Hp & _); [lia | ].
    apply elem_of_dom. exists months'. apply Hlook.
    split; [lia | ]. split; [done | ]. intros y' Hy'. apply Hall. lia. }
  split; [done | ]. rewrite <- (build_non_working_dates_Ok _ _ Hbuild actual).
  unfold is_working_day in Hw. rewrite decide_True in Hw by done.
  by apply bool_decide_eq_true in Hw.
Qed.

Lemma main_events_on_working_days_witness :
  exists cal,
    main pages_2023_2024 zero_clock 2024 2024 default_rules_text salary_calendar
    = Written cal /\
    exists M,
      load_calendars pages_2023_2024 (range (2024 - 1) (2024 + 1)) ∅ = Some M /\
      forall ev, ev ∈ components cal ->
        Date.year (dtstart ev) <= 2024 /\
        (2024 - 1 <= Date.year (dtstart ev) ->
         Date.year (dtstart ev) ∈ dom M /\
         ¬ exists kind,
             recorded M (Date.year (dtstart ev)) (Date.month (dtstart ev))
               (Date.day (dtstart ev)) kind /\
             (kind = holiday \/ kind = dayoff)).
Proof.
  eexists. split; [vm_compute; reflexivity | ].
  apply (main_events_on_working_days pages_2023_2024 zero_clock 2024 2024
           default_rules_text salary_calendar).
  vm_compute. reflexivity.
Defined.

Lemma build_non_working_dates_empty : build_non_working_dates ∅ = Ok ∅.
Proof.
  rewrite build_non_working_dates_entries. unfold entries.
  by rewrite map_to_list_empty.
Qed.

(** X21. Without a page for the year before the first requested one the
    calendar has no events, whatever pages there are for the requested
    years: the first loop stops at once, no year counts as covered and the
    second loop stops at its first year. The rules are still checked. *)
Theorem main_without_previous_year (parse_year : Z -> fetched)
    (clock : nat -> timestamp) (start_year end_year : Z)
    (rules_arg calendar_name : str) :
  parse_year (start_year - 1) = NoPage ->
  main parse_year clock start_year end_year rules_arg calendar_name =
  match parse_rules rules_arg with
  | Raise e => Uncaught e
  | Ok _ => Written (build_calendar [] calendar_name)
  end.
Proof.
  intros Hno. unfold main.
  destruct (parse_rules rules_arg) as [rules | ]; [ | done ].
  assert (load_calendars parse_year (range (start_year - 1) (end_year + 1)) ∅
          = Some ∅) as ->.
  { rewrite range_seqZ. destruct (Z.to_nat _) as [ | n]; [done | ].
    rewrite seqZ_cons by lia. cbn [load_calendars]. by rewrite Hno. }
  rewrite build_non_working_dates_empty, dom_empty_L.
  assert (collect_events clock (range start_year (end_year + 1)) ∅ ∅ rules []
          = Ok []) as ->; [ | done ].
  rewrite range_seqZ. destruct (Z.to_nat _) as [ | n]; [done | ].
  rewrite seqZ_cons by lia. cbn [collect_events].
  by rewrite decide_True by set_solver.
Qed.

Lemma main_without_previous_year_witness :
  pages_2024_only (2024 - 1) = NoPage /\
  main pages_2024_only zero_clock 2024 2024 default_rules_text salary_calendar
  = Written (build_calendar [] salary_calendar).
Proof.
  split; [reflexivity | ].
  by rewrite (main_without_previous_year pages_2024_only zero_clock 2024 2024
                default_rules_text salary_calendar eq_refl).
Defined.
